(** * vendor_ai: the vendor-ledger enrichment pipeline

    A shallow embedding of [vendor_ai.py].  The program reads a ledger of
    vendors, asks a language model and a web search about every vendor,
    asks the model for an action per vendor and for the top opportunities,
    and writes two files.  Python objects that the program shares and
    mutates (the list of records and the record dicts) live in a heap;
    everything the program does to the outside (model and search calls,
    printing, file writes) is appended to a chronological log. *)

From Stdlib Require Import Ascii.
From Stdlib Require Import DecimalString.
From stdpp Require Import gmap strings list.

(** ** Strings *)

Definition dq : string := String "034"%char EmptyString.
Definition CR : ascii := "013"%char.
Definition LF : ascii := "010"%char.
Definition CRLF : string := String CR (String LF EmptyString).
Definition NL : string := String LF EmptyString.

(** [s.replace(old, new)] for a one-character [old]. *)
Fixpoint str_replace (old : ascii) (new s : string) : string :=
  match s with
  | EmptyString => EmptyString
  | String c s' =>
      if Ascii.eqb c old then new +:+ str_replace old new s'
      else String c (str_replace old new s')
  end.

(** The amount string with every [$] and [,] taken out: the wording of
    the specification, to be compared with what line 97 computes. *)
Fixpoint strip_separators (s : string) : string :=
  match s with
  | EmptyString => EmptyString
  | String c s' =>
      if Ascii.eqb c "$"%char || Ascii.eqb c ","%char then strip_separators s'
      else String c (strip_separators s')
  end.

(** ** Exceptions and results *)

Inductive exn : Type :=
  | KeyError (key : string)
  | ValueError (msg : string)
  | AttributeError (msg : string)
  | TypeError (msg : string)
  | FileNotFoundError (path : string)
  | SystemError (msg : string)
  | ExternalCallError (service request : string).

Inductive Result (A : Type) : Type :=
  | Ok (a : A)
  | Raise (e : exn).
Arguments Ok {A} a.
Arguments Raise {A} e.

Definition is_ok {A} (r : Result A) : bool :=
  match r with
  | Ok _ => true
  | Raise _ => false
  end.

(** ** The clock *)

Record DateTime : Type := mkDateTime {
  year : nat; month : nat; day : nat;
  hour : nat; minute : nat; second : nat
}.

Definition digits (n : nat) : string := NilZero.string_of_uint (Nat.to_uint n).

Fixpoint zeros (n : nat) : string :=
  match n with
  | O => EmptyString
  | S n' => String "0"%char (zeros n')
  end.

(** A field of [strftime], zero-padded on the left to [width] digits. *)
Definition zfill (width n : nat) : string :=
  let d := digits n in zeros (width - String.length d) +:+ d.

(** [strftime("%Y%m%d_%H%M%S")] *)
Definition strftime_compact (t : DateTime) : string :=
  zfill 4 (year t) +:+ zfill 2 (month t) +:+ zfill 2 (day t) +:+ "_" +:+
  zfill 2 (hour t) +:+ zfill 2 (minute t) +:+ zfill 2 (second t).

(** [strftime("%Y-%m-%d_%H-%M-%S")] *)
Definition strftime_dashed (t : DateTime) : string :=
  zfill 4 (year t) +:+ "-" +:+ zfill 2 (month t) +:+ "-" +:+ zfill 2 (day t)
  +:+ "_" +:+
  zfill 2 (hour t) +:+ "-" +:+ zfill 2 (minute t) +:+ "-" +:+ zfill 2 (second t).

(** ** What the outside world sees *)

Inductive event : Type :=
  | EvLLM (prompt : string) (response : option string)
  | EvSearch (query : string) (response : option string)
  | EvPrint (line : string)
  | EvOpen (path : string)
  | EvWrite (path data : string).

(** A call to the model or to the search that raised. *)
Definition failed_call (e : event) : bool :=
  match e with
  | EvLLM _ None | EvSearch _ None => true
  | _ => false
  end.

Definition is_file_event (e : event) : bool :=
  match e with
  | EvOpen _ | EvWrite _ _ => true
  | _ => false
  end.

(** ** Python's built-ins and the external collaborators

    [float], [repr] of a float, [str.strip] and [str.lower] belong to the
    language, and floats have no exact counterpart here: they are an
    interface.  [None] stands for an exception ([ValueError] for [float]). *)
Class Builtins : Type := {
  F : Type;
  float_of_str : string -> option F;
  float_repr : F -> string;
  str_strip : string -> string;
  str_lower : string -> string
}.

(** A row of [csv.DictReader]: a column maps to its text, or to Python's
    [None] when the row is shorter than the header. *)
Abbreviation row := (gmap string (option string)).

(** The language model, the web search, the wall clock and the reader of
    the [csv] module.  The first three may answer differently every time:
    they see the log so far.  [None] is a failed call. *)
Class Services : Type := {
  llm_invoke : list event -> string -> option string;
  search_run : list event -> string -> option string;
  datetime_now : list event -> DateTime;
  csv_DictReader : string -> list row
}.

(** ** Prompt templates: the text of the source, kept as data *)

Definition query_template : string :=
  "Generate a search query to find what services {vendor_name} provides.".

Definition summary_template : string :=
  "
Analyze the search results about a vendor and infer the core services they provide. 
Focus on identifying patterns, key offerings, and the primary value proposition—not just summarizing the text. 
Avoid mentioning the vendor's name. Be concise and descriptive in one sentence.  

Search Results:  
{search_results}  

Description of Services:".

Definition classification_template : string :=
  "
Objective: 
Analyze the following vendor service description and any other relevant context to determine the most appropriate departmental category. 
Focus on the core function of the service, not the vendor's name.  

Service Description: {service_description}  

Available Categories: {departments}  

Guidelines:
- Choose the category that best aligns with the primary purpose of the service.  
- If the service spans multiple departments, pick the one it most directly supports.  
- Return only the category name, without explanations or extra text.  

Answer:".

Definition recommendation_template : string :=
  "
    Objective:  
    Analyze the vendor portfolio holistically and recommend the best action for 
    {vendor_name} based on strategic alignment, cost efficiency, and redundancy.  

    Input Data:  
    - Full Vendor Portfolio: {vendor_summary}  
    - Target Vendor: {vendor_name}  
    - Spend: ${amount}  
    - Category: {category}  
    - Service Description: {description}  

    Evaluation Criteria:  
    1. Duplicates/Overlaps: Does another vendor provide the same or similar service?  
    2. Spend Efficiency: Is the cost justified relative to value?  
    3. Portfolio Fit: Does this vendor align with long-term needs?  

    Possible Actions:  
    - `optimize` (Renegotiate terms, improve efficiency)  
    - `consolidate: [Vendor Name]` (Merge with a specific vendor; must specify)  
    - `terminate` (Discontinue due to irelevant to business operations, redundancy or low value)  

    Rules:  
    - Return ONLY the action in the exact format:  
    - `optimize`  
    - `consolidate: [Vendor Name]`  
    - `terminate`  
    - Never add explanations or deviations.  

    Example Outputs:  
    - " +:+ dq +:+
  "consolidate: AWS" +:+ dq +:+
  "  
    - " +:+ dq +:+
  "terminate" +:+ dq +:+
  "  
    - " +:+ dq +:+
  "optimize" +:+ dq +:+
  "  

Recommendation for {vendor_name}: ".

Definition analysis_template : string :=
  "
    Analyze the vendor dataset holistically and identify the TOP 3 cost-saving opportunities with the highest potential impact. 
    Evaluate each opportunity using these criteria in order of priority:

    1. Potential savings magnitude (prioritize highest $ impact)
    2. Service/category redundancy (overlap with other vendors)
    3. Strategic alignment (low-value or non-core services)

    Input Data:
    {vendor_actions}

    Required Output Format:
    - Strictly CSV format with EXACTLY these columns: " +:+ dq +:+
  "Vendor name" +:+ dq +:+
  "," +:+ dq +:+
  "Recommended action" +:+ dq +:+
  "," +:+ dq +:+
  "Explanation" +:+ dq +:+
  "
    - Each explanation must include:
    Specific $ impact potential (estimate if exact unavailable)
    Clear redundancy/overlap evidence (if applicable)
    Strategic rationale

    Rules:
    - Output ONLY valid CSV data - no headers, titles, or explanations
    - Never use markdown code blocks or quotes
    - Limit the output to only the TOP 3
    - If fewer than 3 opportunities exist, leave remaining rows empty

    Example Output:
    " +:+ dq +:+
  "Acme Corp" +:+ dq +:+
  "," +:+ dq +:+
  "consolidate: XYZ Inc" +:+ dq +:+
  "," +:+ dq +:+
  "$250K potential savings, duplicate CRM tools" +:+ dq +:+
  "
    " +:+ dq +:+
  "Beta LLC" +:+ dq +:+
  "," +:+ dq +:+
  "terminate" +:+ dq +:+
  "," +:+ dq +:+
  "$180K savings, non-core legal service" +:+ dq +:+
  "
    " +:+ dq +:+
  "Gamma Inc" +:+ dq +:+
  "," +:+ dq +:+
  "optimize" +:+ dq +:+
  "," +:+ dq +:+
  "$90K via contract renegotiation" +:+ dq +:+
  "
".

Definition departments : list string :=
  ["Engineering"; "Facilities"; "G&A"; "Legal"; "M&A"; "Marketing";
   "SaaS"; "Product"; "Professional Services"; "Sales"; "Support"; "Finance"].

(** [template.format] with keyword arguments [kw], for templates whose
    replacement fields are
    plain names: [{name}] is looked up in [kw], [{{] and [}}] are the
    escaped braces.  [field = Some n] while the scan is inside a field
    whose name so far is [n]. *)
Fixpoint str_format_go (kw : gmap string string) (t : string)
    (field : option string) : Result string :=
  match t with
  | EmptyString =>
      match field with
      | None => Ok EmptyString
      | Some _ => Raise (ValueError "expected '}' before end of string")
      end
  | String c t' =>
      match field with
      | Some n =>
          if Ascii.eqb c "}"%char then
            match kw !! n with
            | Some v =>
                match str_format_go kw t' None with
                | Ok r => Ok (v +:+ r)
                | Raise e => Raise e
                end
            | None => Raise (KeyError n)
            end
          else str_format_go kw t' (Some (n +:+ String c EmptyString))
      | None =>
          if Ascii.eqb c "{"%char then
            match t' with
            | String c2 t'' =>
                if Ascii.eqb c2 "{"%char then
                  match str_format_go kw t'' None with
                  | Ok r => Ok (String "{"%char r)
                  | Raise e => Raise e
                  end
                else str_format_go kw t' (Some EmptyString)
            | EmptyString => str_format_go kw t' (Some EmptyString)
            end
          else if Ascii.eqb c "}"%char then
            match t' with
            | String c2 t'' =>
                if Ascii.eqb c2 "}"%char then
                  match str_format_go kw t'' None with
                  | Ok r => Ok (String "}"%char r)
                  | Raise e => Raise e
                  end
                else Raise (ValueError "Single '}' encountered in format string")
            | EmptyString =>
                Raise (ValueError "Single '}' encountered in format string")
            end
          else
            match str_format_go kw t' None with
            | Ok r => Ok (String c r)
            | Raise e => Raise e
            end
      end
  end.

Definition str_format (t : string) (kw : gmap string string) : Result string :=
  str_format_go kw t None.

(** ** The writer of the [csv] module (excel dialect, minimal quoting) *)

Definition csv_special (c : ascii) : bool :=
  Ascii.eqb c ","%char || Ascii.eqb c "034"%char || Ascii.eqb c CR || Ascii.eqb c LF.

Fixpoint str_exists (p : ascii -> bool) (s : string) : bool :=
  match s with
  | EmptyString => false
  | String c s' => p c || str_exists p s'
  end.

(** Every quote character inside a quoted field is written twice. *)
Fixpoint csv_escape (s : string) : string :=
  match s with
  | EmptyString => EmptyString
  | String c s' =>
      if Ascii.eqb c "034"%char then String c (String c (csv_escape s'))
      else String c (csv_escape s')
  end.

Definition csv_field (s : string) : string :=
  if str_exists csv_special s then dq +:+ csv_escape s +:+ dq else s.

(** [writer.writerow(fields)]: what is appended to the file. A row made of
    one empty field is written as a pair of quotes. *)
Definition csv_writerow (fields : list string) : string :=
  match fields with
  | [EmptyString] => dq +:+ dq +:+ CRLF
  | _ => String.concat "," (map csv_field fields) +:+ CRLF
  end.

Definition fieldnames : list string :=
  ["Vendor"; "Amount"; "Description"; "Category"; "Action"].

(** ** Values, objects and the world *)

Abbreviation loc := nat.

Section Model.
Context {B : Builtins} {Sv : Services}.

(** What a record or a chain input holds under a key. *)
Inductive scalar : Type :=
  | SNone
  | SStr (s : string)
  | SFloat (x : F).

Abbreviation dict := (gmap string scalar).

(** The objects that are mutated or shared: record dicts, and lists of
    references to them. *)
Inductive object : Type :=
  | ODict (d : dict)
  | OList (items : list loc).

(** What the dict threaded through [full_pipeline] holds under a key: an
    immutable string, or a reference to a list. *)
Inductive value : Type :=
  | VStr (s : string)
  | VRef (l : loc).

Record World : Type := mkWorld {
  heap : list object;
  files : gmap string string;
  log : list event
}.

Definition set_heap (h : list object) (w : World) : World :=
  mkWorld h (files w) (log w).
Definition set_files (fs : gmap string string) (w : World) : World :=
  mkWorld (heap w) fs (log w).
Definition add_event (e : event) (w : World) : World :=
  mkWorld (heap w) (files w) (log w ++ [e]).

(** [str(v)], as used by f-strings and by [str.format]. *)
Definition str (v : scalar) : string :=
  match v with
  | SNone => "None"
  | SStr s => s
  | SFloat x => float_repr x
  end.

(** How the csv writer turns a cell into text: [None] is the empty cell. *)
Definition csv_cell (v : scalar) : string :=
  match v with
  | SNone => EmptyString
  | SStr s => s
  | SFloat x => float_repr x
  end.

Definition scalar_of (o : option string) : scalar :=
  match o with
  | Some s => SStr s
  | None => SNone
  end.

(** ** Computations: state and exceptions *)

Definition M (A : Type) : Type := World -> Result A * World.

Definition ret {A} (a : A) : M A := fun w => (Ok a, w).
Definition raise {A} (e : exn) : M A := fun w => (Raise e, w).
Definition bind {A C} (m : M A) (k : A -> M C) : M C :=
  fun w =>
    match m w with
    | (Ok a, w') => k a w'
    | (Raise e, w') => (Raise e, w')
    end.

Notation "x <~ m ;; k" := (bind m (fun x => k))
  (at level 100, m at next level, right associativity).
Notation "m >> k" := (bind m (fun _ => k))
  (at level 100, right associativity).

Definition lift {A} (r : Result A) : M A :=
  match r with
  | Ok a => ret a
  | Raise e => raise e
  end.

Fixpoint for_each {A} (xs : list A) (body : A -> M unit) : M unit :=
  match xs with
  | [] => ret tt
  | x :: xs' => body x >> for_each xs' body
  end.

(** The elements of a generator expression, evaluated left to right. *)
Fixpoint map_M {A C} (f : A -> M C) (xs : list A) : M (list C) :=
  match xs with
  | [] => ret []
  | x :: xs' => y <~ f x ;; ys <~ map_M f xs' ;; ret (y :: ys)
  end.

(** *** Effects *)

Definition emit (e : event) : M unit := fun w => (Ok tt, add_event e w).

Definition print (line : string) : M unit := emit (EvPrint line).

Definition call_llm (prompt : string) : M string :=
  fun w =>
    match llm_invoke (log w) prompt with
    | Some r => (Ok r, add_event (EvLLM prompt (Some r)) w)
    | None => (Raise (ExternalCallError "llm" prompt),
               add_event (EvLLM prompt None) w)
    end.

Definition call_search (query : string) : M string :=
  fun w =>
    match search_run (log w) query with
    | Some r => (Ok r, add_event (EvSearch query (Some r)) w)
    | None => (Raise (ExternalCallError "search" query),
               add_event (EvSearch query None) w)
    end.

Definition now : M DateTime := fun w => (Ok (datetime_now (log w)), w).

(** [open(path, "r").read()] *)
Definition read_file (path : string) : M string :=
  fun w =>
    match files w !! path with
    | Some content => (Ok content, w)
    | None => (Raise (FileNotFoundError path), w)
    end.

(** [open(path, "w")]: the file is created, or emptied. *)
Definition open_w (path : string) : M unit :=
  fun w => (Ok tt, add_event (EvOpen path) (set_files (<[path := EmptyString]> (files w)) w)).

(** [f.write(data)] on a file opened for writing. *)
Definition write (path data : string) : M unit :=
  fun w =>
    (Ok tt, add_event (EvWrite path data)
              (set_files (<[path := default EmptyString (files w !! path) +:+ data]> (files w)) w)).

Definition alloc (o : object) : M loc :=
  fun w => (Ok (length (heap w)), set_heap (heap w ++ [o]) w).

Definition load_dict (l : loc) : M dict :=
  fun w =>
    match heap w !! l with
    | Some (ODict d) => (Ok d, w)
    | Some (OList _) => (Raise (TypeError "list indices must be integers or slices, not str"), w)
    | None => (Raise (SystemError "dangling reference"), w)
    end.

Definition load_list (l : loc) : M (list loc) :=
  fun w =>
    match heap w !! l with
    | Some (OList items) => (Ok items, w)
    | Some (ODict _) => (Raise (TypeError "expected a list of records"), w)
    | None => (Raise (SystemError "dangling reference"), w)
    end.

Definition store (l : loc) (o : object) : M unit :=
  fun w => (Ok tt, set_heap (<[l := o]> (heap w)) w).

(** [d[key]] *)
Definition getitem {V} (d : gmap string V) (key : string) : M V :=
  match d !! key with
  | Some v => ret v
  | None => raise (KeyError key)
  end.

(** [d[key] = v] on the dict object at [l] *)
Definition setitem (l : loc) (key : string) (v : scalar) : M unit :=
  d <~ load_dict l ;; store l (ODict (<[key := v]> d)).

(** [xs.append(r)] on the list object at [l] *)
Definition append (l : loc) (r : loc) : M unit :=
  items <~ load_list l ;; store l (OList (items ++ [r])).

(** ** The chains *)

(** [RunnablePassthrough.assign(key=f)]: a new dict, the input plus [key]. *)
Definition assign {V} (key : string) (f : gmap string V -> M V)
    (x : gmap string V) : M (gmap string V) :=
  v <~ f x ;; ret (<[key := v]> x).

(** [prompt | llm | (lambda x: x.content)]: the template is filled from the
    input dict (partial variables give way to the input), the model is
    called, the text of its answer is returned. *)
Definition chain (template : string) (partial_variables : gmap string string)
    (x : dict) : M string :=
  prompt <~ lift (str_format template ((str <$> x) ∪ partial_variables)) ;;
  call_llm prompt.

Definition query_chain (x : dict) : M scalar :=
  r <~ chain query_template ∅ x ;; ret (SStr r).

Definition summary_chain (x : dict) : M scalar :=
  r <~ chain summary_template ∅ x ;; ret (SStr r).

Definition classification_chain (x : dict) : M scalar :=
  r <~ chain classification_template
         {[ "departments" := String.concat ", " departments ]} x ;;
  ret (SStr r).

Definition search_step (x : dict) : M scalar :=
  q <~ getitem x "search_query" ;;
  r <~ call_search (str q) ;;
  ret (SStr r).

Definition analyze_pipeline (x : dict) : M dict :=
  x <~ assign "search_query" query_chain x ;;
  x <~ assign "search_results" search_step x ;;
  x <~ assign "service_description" summary_chain x ;;
  assign "category" classification_chain x.

(** ** Enrichment *)

(** Line 97: [float(s.replace(',', '').replace('$', ''))] *)
Definition parse_amount (s : string) : Result F :=
  let cleaned := str_replace "$"%char EmptyString (str_replace ","%char EmptyString s) in
  match float_of_str cleaned with
  | Some x => Ok x
  | None => Raise (ValueError ("could not convert string to float: " +:+ cleaned))
  end.

(** The same on a cell of the reader, which may be [None]. *)
Definition amount_of (cell : option string) : Result F :=
  match cell with
  | Some s => parse_amount s
  | None => Raise (AttributeError "'NoneType' object has no attribute 'replace'")
  end.

(** The body of the loop of [analyze_vendors]. *)
Definition analyze_vendors_body (processed_data : loc) (vendor : row) : M unit :=
  name <~ getitem vendor "Vendor" ;;
  result <~ analyze_pipeline {[ "vendor_name" := scalar_of name ]} ;;
  name <~ getitem vendor "Vendor" ;;
  raw <~ getitem vendor "Amount" ;;
  amount <~ lift (amount_of raw) ;;
  description <~ getitem result "service_description" ;;
  category <~ getitem result "category" ;;
  record <~ alloc (ODict {[ "Vendor" := scalar_of name;
                            "Amount" := SFloat amount;
                            "Description" := description;
                            "Category" := category ]}) ;;
  append processed_data record >>
  print ("classifiying vendor: " +:+ str (scalar_of name) +:+ " - " +:+
         str category +:+ " - " +:+ str description).

Definition analyze_vendors (input_file : string) : M loc :=
  content <~ read_file input_file ;;
  let vendors := csv_DictReader content in
  processed_data <~ alloc (OList []) ;;
  for_each vendors (analyze_vendors_body processed_data) >>
  ret processed_data.

(** ** Recommendation *)

(** One line of [vendor_summary]. *)
Definition summary_line (r : loc) : M string :=
  v <~ load_dict r ;;
  vendor <~ getitem v "Vendor" ;;
  amount <~ getitem v "Amount" ;;
  category <~ getitem v "Category" ;;
  description <~ getitem v "Description" ;;
  ret (str vendor +:+ " ($" +:+ str amount +:+ ", " +:+ str category +:+ "): "
       +:+ str description).

(** [recommendation_prompt | llm | (lambda x: x.content.strip().lower())] *)
Definition recommendation_chain (x : dict) : M string :=
  r <~ chain recommendation_template ∅ x ;;
  ret (str_lower (str_strip r)).

(** The body of the loop of [recommend_actions], on the record at [r]. *)
Definition recommend_actions_body (vendor_summary : string) (r : loc) : M unit :=
  v <~ load_dict r ;;
  vendor <~ getitem v "Vendor" ;;
  amount <~ getitem v "Amount" ;;
  category <~ getitem v "Category" ;;
  description <~ getitem v "Description" ;;
  recommendation <~ recommendation_chain
      {[ "vendor_summary" := SStr vendor_summary;
         "vendor_name" := vendor;
         "amount" := amount;
         "category" := category;
         "description" := description ]} ;;
  setitem r "Action" (SStr recommendation) >>
  print ("recommending action for vendor: " +:+ str vendor +:+ " - " +:+
         recommendation).

(** The list object itself is never changed while it is walked, so both
    walks go over the references it holds on entry. *)
Definition recommend_actions (processed_data : loc) : M loc :=
  items <~ load_list processed_data ;;
  lines <~ map_M summary_line items ;;
  let vendor_summary := String.concat NL lines in
  for_each items (recommend_actions_body vendor_summary) >>
  ret processed_data.

(** ** Opportunities *)

(** One line of [vendor_actions]. *)
Definition action_line (r : loc) : M string :=
  v <~ load_dict r ;;
  vendor <~ getitem v "Vendor" ;;
  amount <~ getitem v "Amount" ;;
  action <~ getitem v "Action" ;;
  description <~ getitem v "Description" ;;
  ret (str vendor +:+ " ($" +:+ str amount +:+ "): " +:+ str action +:+ " | "
       +:+ str description).

Definition identify_top_opportunities (processed_data_with_actions : loc) : M string :=
  items <~ load_list processed_data_with_actions ;;
  lines <~ map_M action_line items ;;
  let vendor_actions := String.concat NL lines in
  print "identifying opportunities" >>
  opportunities <~ chain analysis_template ∅
                     {[ "vendor_actions" := SStr vendor_actions ]} ;;
  t <~ now ;;
  let filename := "opportunities_" +:+ strftime_dashed t +:+ ".txt" in
  open_w filename >>
  write filename opportunities >>
  ret opportunities.

(** ** Persistence *)

(** [DictWriter._dict_to_list]: a key outside the field names is an error,
    a missing field is written empty. *)
Definition dict_to_list (d : dict) : Result (list scalar) :=
  if bool_decide (dom d ⊆ list_to_set fieldnames) then
    Ok (map (fun k => default (SStr EmptyString) (d !! k)) fieldnames)
  else Raise (ValueError "dict contains fields not in fieldnames").

Definition writerow_dict (output_file : string) (r : loc) : M unit :=
  d <~ load_dict r ;;
  cells <~ lift (dict_to_list d) ;;
  write output_file (csv_writerow (map csv_cell cells)).

Definition save_to_csv (data : loc) : M string :=
  t <~ now ;;
  let output_file := "results_" +:+ strftime_compact t +:+ ".csv" in
  open_w output_file >>
  write output_file (csv_writerow fieldnames) >>
  items <~ load_list data ;;
  for_each items (writerow_dict output_file) >>
  ret ("Data saved to " +:+ output_file).

(** ** The pipeline *)

Abbreviation state := (gmap string value).

Definition expect_str (v : value) : M string :=
  match v with
  | VStr s => ret s
  | VRef _ => raise (TypeError "expected str, not list")
  end.

Definition expect_ref (v : value) : M loc :=
  match v with
  | VRef l => ret l
  | VStr _ => raise (TypeError "expected a list of records, not str")
  end.

Definition process_vendors_tool : state -> M state :=
  assign "processed_data"
    (fun x => v <~ getitem x "input_file" ;;
              input_file <~ expect_str v ;;
              l <~ analyze_vendors input_file ;;
              ret (VRef l)).

Definition add_actions_tool : state -> M state :=
  assign "processed_data_with_actions"
    (fun x => v <~ getitem x "processed_data" ;;
              l <~ expect_ref v ;;
              l' <~ recommend_actions l ;;
              ret (VRef l')).

Definition identify_opportunities_tool : state -> M state :=
  assign "top_opportunities"
    (fun x => v <~ getitem x "processed_data_with_actions" ;;
              l <~ expect_ref v ;;
              s <~ identify_top_opportunities l ;;
              ret (VStr s)).

(** [RunnablePassthrough(func)]: [func] runs for its effect, the input is
    handed on unchanged. *)
Definition save_results_tool (x : state) : M state :=
  v <~ getitem x "processed_data" ;;
  l <~ expect_ref v ;;
  save_to_csv l >>
  ret x.

Definition full_pipeline (x : state) : M state :=
  x <~ process_vendors_tool x ;;
  x <~ add_actions_tool x ;;
  x <~ identify_opportunities_tool x ;;
  save_results_tool x.

(** The last line of the module. *)
Definition results : M state :=
  full_pipeline {[ "input_file" := VStr "vendors.csv" ]}.

(** ** Specification vocabulary *)

(** [preserves R m]: whatever [m] returns or raises, the world it leaves
    is related by [R] to the world it started in. *)
Definition preserves {A} (R : World -> World -> Prop) (m : M A) : Prop :=
  forall w r w', m w = (r, w') -> R w w'.

(** A relation between worlds that every step which only talks to the
    outside keeps: reflexive, transitive, blind to the log. *)
Class FrameRel (R : World -> World -> Prop) : Prop := {
  frame_refl : forall w, R w w;
  frame_trans : forall w1 w2 w3, R w1 w2 -> R w2 w3 -> R w1 w3;
  frame_event : forall e w, is_file_event e = false -> R w (add_event e w)
}.

Definition file_events (evs : list event) : list event :=
  List.filter is_file_event evs.

(** No file was opened or written: the file system is what it was and the
    log has no new file event. *)
Definition same_files (w w' : World) : Prop :=
  files w' = files w /\ file_events (log w') = file_events (log w).

Definition same_heap (w w' : World) : Prop := heap w' = heap w.

(** [on_raise R m]: when [m] raises, the world it leaves is related by [R]
    to the one it started in. *)
Definition on_raise {A} (R : World -> World -> Prop) (m : M A) : Prop :=
  forall w e w', m w = (Raise e, w') -> R w w'.

(** [raises_only P m]: every exception that [m] raises satisfies [P]. *)
Definition raises_only {A} (P : exn -> Prop) (m : M A) : Prop :=
  forall w e w', m w = (Raise e, w') -> P e.

(** The exceptions of the program itself, as opposed to a failed call. *)
Definition internal (e : exn) : Prop :=
  match e with
  | ExternalCallError _ _ => False
  | _ => True
  end.

Definition internal_result {A} (r : Result A) : Prop :=
  match r with
  | Raise e => internal e
  | Ok _ => True
  end.

(** The exception that a failed call raises. *)
Definition raised_by (c : event) : option exn :=
  match c with
  | EvLLM prompt None => Some (ExternalCallError "llm" prompt)
  | EvSearch query None => Some (ExternalCallError "search" query)
  | _ => None
  end.

(** No call failed among these events. *)
Definition clean (evs : list event) : Prop :=
  Forall (fun c => failed_call c = false) evs.

(** The last of these events is the call that raised [e], and no call
    failed before it. *)
Definition aborted_by (e : exn) (evs : list event) : Prop :=
  exists evs0 c, evs = evs0 ++ [c] /\ clean evs0 /\ raised_by c = Some e.

Definition outcome {A} (r : Result A) (evs : list event) : Prop :=
  match r with
  | Raise (ExternalCallError svc req) => aborted_by (ExternalCallError svc req) evs
  | _ => clean evs
  end.

(** [sound m]: [m] only appends to the log; a failed call is the last
    thing it does, and it raises exactly then. *)
Definition sound {A} (m : M A) : Prop :=
  forall w r w', m w = (r, w') ->
  exists evs, log w' = log w ++ evs /\ outcome r evs.

(** The record at a location may only have gained or changed its Action. *)
Definition action_added (o o' : object) : Prop :=
  o' = o \/
  exists d a, o = ODict d /\ o' = ODict (<["Action" := SStr a]> d).

(** Nothing is allocated or freed, and every object is the one it was,
    up to the Action of a record. *)
Definition action_only (w w' : World) : Prop :=
  Forall2 action_added (heap w) (heap w').

(** A prompt made from the classification template. *)
Definition classification_prompt (p : string) : Prop :=
  exists kw, str_format classification_template kw = Ok p.

(** A prompt made from the recommendation template. *)
Definition recommendation_prompt (p : string) : Prop :=
  exists kw, str_format recommendation_template kw = Ok p.

(** The record that enrichment makes of the ledger row [v], given the
    events [evs] of that enrichment: name and amount come from the row,
    description and category are answers of the model, as they came. *)
Definition enriched (v : row) (d : dict) (evs : list event) : Prop :=
  exists name raw amount p1 q sr p3 desc p4 cat,
    v !! "Vendor" = Some name /\
    v !! "Amount" = Some (Some raw) /\
    parse_amount raw = Ok amount /\
    classification_prompt p4 /\
    d = {[ "Vendor" := scalar_of name; "Amount" := SFloat amount;
           "Description" := SStr desc; "Category" := SStr cat ]} /\
    evs = [ EvLLM p1 (Some q); EvSearch q (Some sr); EvLLM p3 (Some desc);
            EvLLM p4 (Some cat);
            EvPrint ("classifiying vendor: " +:+ str (scalar_of name) +:+ " - "
                     +:+ cat +:+ " - " +:+ desc) ].

(** The action [a] is an answer of the model to a recommendation prompt,
    among the events [evs], trimmed and lowercased. *)
Definition action_from (a : string) (evs : list event) : Prop :=
  exists p resp, recommendation_prompt p /\ EvLLM p (Some resp) ∈ evs /\
                 a = str_lower (str_strip resp).

(** The cells of a record in the order of the columns, a missing one
    empty, and the text of the file that holds the records [ds]. *)
Definition cells (d : dict) : list string :=
  map (fun k => csv_cell (default (SStr EmptyString) (d !! k))) fieldnames.

Definition csv_text (ds : list dict) : string :=
  csv_writerow fieldnames +:+
  String.concat EmptyString (map (fun d => csv_writerow (cells d)) ds).

Definition results_name (t : DateTime) : string :=
  "results_" +:+ strftime_compact t +:+ ".csv".

Definition opportunities_name (t : DateTime) : string :=
  "opportunities_" +:+ strftime_dashed t +:+ ".txt".

(** The record that the whole run makes of the ledger row [v], given the
    events [evs] of the run: the enriched record, with the Action that
    the recommendation stage stored. *)
Definition actioned (v : row) (d : dict) (evs : list event) : Prop :=
  exists name raw amount desc cat action p,
    v !! "Vendor" = Some name /\
    v !! "Amount" = Some (Some raw) /\
    parse_amount raw = Ok amount /\
    classification_prompt p /\ EvLLM p (Some cat) ∈ evs /\
    action_from action evs /\
    d = <["Action" := SStr action]>
          {[ "Vendor" := scalar_of name; "Amount" := SFloat amount;
             "Description" := SStr desc; "Category" := SStr cat ]}.

(** Stubbed, deterministic collaborators: the same request gets the same
    answer, whatever happened before. *)
Definition deterministic : Prop :=
  (forall h1 h2 p, llm_invoke h1 p = llm_invoke h2 p) /\
  (forall h1 h2 q, search_run h1 q = search_run h2 q).

(** [state_blind m]: what [m] returns or raises does not depend on the
    world it starts in. *)
Definition state_blind {A} (m : M A) : Prop :=
  forall w1 w2, (m w1).1 = (m w2).1.

End Model.

Notation "x <~ m ;; k" := (bind m (fun x => k))
  (at level 100, m at next level, right associativity).
Notation "m >> k" := (bind m (fun _ => k))
  (at level 100, right associativity).

(** ** Reading a csv text back

    The reader of the [csv] module for the excel dialect, over the whole
    text of a file opened with [newline=""]: a record ends at CR, LF or
    CRLF; a quoted field may hold anything, with quotes doubled; a blank
    line is the empty record.  It is what tells the rows and the fields of
    a written file apart. *)

Inductive rstate : Type :=
  | StartRecord
  | AfterCR
  | StartField
  | InField
  | InQuoted
  | QuoteInQuoted.

(** The record that ends when the reader stops in state [st]. *)
Definition record_end (st : rstate) (cur : string) (rec : list string) : list string :=
  match st with
  | StartRecord | AfterCR => []
  | _ => rec ++ [cur]
  end.

Definition snoc (s : string) (c : ascii) : string := s +:+ String c EmptyString.

Fixpoint csv_read (s : string) (st : rstate) (cur : string) (rec : list string)
    : list (list string) :=
  match s with
  | EmptyString =>
      match st with
      | StartRecord | AfterCR => []
      | _ => [rec ++ [cur]]
      end
  | String c s' =>
      match st with
      | InQuoted =>
          if Ascii.eqb c "034"%char then csv_read s' QuoteInQuoted cur rec
          else csv_read s' InQuoted (snoc cur c) rec
      | AfterCR =>
          if Ascii.eqb c LF then csv_read s' StartRecord EmptyString []
          else if Ascii.eqb c CR then [] :: csv_read s' AfterCR EmptyString []
          else if Ascii.eqb c "034"%char then csv_read s' InQuoted EmptyString []
          else if Ascii.eqb c ","%char then csv_read s' StartField EmptyString [EmptyString]
          else csv_read s' InField (String c EmptyString) []
      | StartRecord | StartField =>
          if Ascii.eqb c LF then record_end st cur rec :: csv_read s' StartRecord EmptyString []
          else if Ascii.eqb c CR then record_end st cur rec :: csv_read s' AfterCR EmptyString []
          else if Ascii.eqb c "034"%char then csv_read s' InQuoted EmptyString rec
          else if Ascii.eqb c ","%char then csv_read s' StartField EmptyString (rec ++ [EmptyString])
          else csv_read s' InField (String c EmptyString) rec
      | InField | QuoteInQuoted =>
          if Ascii.eqb c LF then (rec ++ [cur]) :: csv_read s' StartRecord EmptyString []
          else if Ascii.eqb c CR then (rec ++ [cur]) :: csv_read s' AfterCR EmptyString []
          else if Ascii.eqb c ","%char then csv_read s' StartField EmptyString (rec ++ [cur])
          else if Ascii.eqb c "034"%char then
            match st with
            | QuoteInQuoted => csv_read s' InQuoted (snoc cur c) rec
            | _ => csv_read s' InField (snoc cur c) rec
            end
          else csv_read s' InField (snoc cur c) rec
      end
  end.

Definition csv_reader (text : string) : list (list string) :=
  csv_read text StartRecord EmptyString [].

(** The rows of a text that hold data: blank lines are not rows. *)
Definition data_rows (text : string) : list (list string) :=
  filter (fun r => r <> []) (csv_reader text).

(** The shape the opportunity stage asks the model for. *)
Definition opportunity_shape (text : string) : Prop :=
  length (data_rows text) <= 3 /\ Forall (fun r => length r = 3) (data_rows text).

(** ** Test doubles

    Stand-ins for the interfaces, to run the pipeline on concrete ledgers:
    decimal numbers for the floats, the ASCII part of [strip] and [lower],
    a [DictReader] on top of [csv_reader], scripted model and search. *)

Module Doubles.

(** A decimal number: its integer part, and its fraction digits without
    trailing zeros. *)
Record dec : Type := mkDec { units : nat; fraction : string }.

Definition is_digit (c : ascii) : bool :=
  (48 <=? nat_of_ascii c) && (nat_of_ascii c <=? 57).

Fixpoint all_digits (s : string) : bool :=
  match s with
  | EmptyString => true
  | String c s' => is_digit c && all_digits s'
  end.

Fixpoint nat_of_digits (acc : nat) (s : string) : nat :=
  match s with
  | EmptyString => acc
  | String c s' => nat_of_digits (10 * acc + (nat_of_ascii c - 48)) s'
  end.

(** The text before the first dot, and the text after it. *)
Fixpoint split_dot (s : string) : string * string :=
  match s with
  | EmptyString => (EmptyString, EmptyString)
  | String c s' =>
      if Ascii.eqb c "."%char then (EmptyString, s')
      else let '(a, b) := split_dot s' in (String c a, b)
  end.

Fixpoint drop_trailing_zeros (s : string) : string :=
  match s with
  | EmptyString => EmptyString
  | String c s' =>
      match drop_trailing_zeros s' with
      | EmptyString => if Ascii.eqb c "0"%char then EmptyString else String c EmptyString
      | r => String c r
      end
  end.

Definition dec_of_str (s : string) : option dec :=
  let '(a, b) := split_dot s in
  match a with
  | EmptyString => None
  | _ => if all_digits a && all_digits b
         then Some (mkDec (nat_of_digits 0 a) (drop_trailing_zeros b))
         else None
  end.

Definition dec_repr (d : dec) : string :=
  digits (units d) +:+ "." +:+
  match fraction d with
  | EmptyString => "0"
  | f => f
  end.

Definition is_space (c : ascii) : bool :=
  let n := nat_of_ascii c in
  ((9 <=? n) && (n <=? 13)) || ((28 <=? n) && (n <=? 32)).

Fixpoint lstrip (s : string) : string :=
  match s with
  | EmptyString => EmptyString
  | String c s' => if is_space c then lstrip s' else s
  end.

Fixpoint rstrip (s : string) : string :=
  match s with
  | EmptyString => EmptyString
  | String c s' =>
      match rstrip s' with
      | EmptyString => if is_space c then EmptyString else String c EmptyString
      | r => String c r
      end
  end.

Definition ascii_strip (s : string) : string := rstrip (lstrip s).

Definition lower_char (c : ascii) : ascii :=
  let n := nat_of_ascii c in
  if (65 <=? n) && (n <=? 90) then ascii_of_nat (n + 32) else c.

Fixpoint ascii_lower (s : string) : string :=
  match s with
  | EmptyString => EmptyString
  | String c s' => String (lower_char c) (ascii_lower s')
  end.

Definition builtins : Builtins :=
  {| F := dec;
     float_of_str := dec_of_str;
     float_repr := dec_repr;
     str_strip := ascii_strip;
     str_lower := ascii_lower |}.

(** [csv.DictReader]: the first record names the columns, blank records
    are skipped, a short record is filled with [None]. *)
Fixpoint zip_row (header : list string) (cells : list string) : row :=
  match header with
  | [] => ∅
  | h :: header' =>
      match cells with
      | [] => <[h := None]> (zip_row header' [])
      | c :: cells' => <[h := Some c]> (zip_row header' cells')
      end
  end.

Definition dict_reader (text : string) : list row :=
  match csv_reader text with
  | [] => []
  | header :: records =>
      map (zip_row header) (filter (fun r => r <> []) records)
  end.

Fixpoint count_searches (h : list event) : nat :=
  match h with
  | [] => 0
  | EvSearch _ _ :: h' => S (count_searches h')
  | _ :: h' => count_searches h'
  end.

Fixpoint has_prefix (p s : string) : bool :=
  match p, s with
  | EmptyString, _ => true
  | String a p', String b s' => Ascii.eqb a b && has_prefix p' s'
  | _, _ => false
  end.

(** The model told what to answer to each kind of prompt; it echoes the
    prompt as the search query. *)
Definition scripted_llm (summary category action opportunities : string)
    (prompt : string) : option string :=
  if has_prefix "Generate a search query" prompt then Some prompt
  else if has_prefix (NL +:+ "Analyze the search results") prompt then Some summary
  else if has_prefix (NL +:+ "Objective:") prompt then Some category
  else if has_prefix (NL +:+ "    Objective:") prompt then Some action
  else Some opportunities.

Definition noon : DateTime := mkDateTime 2024 5 17 12 0 0.

(** Answers that never depend on what happened before. The search fails
    on its call number [fail_at] (counted from 0), if any. *)
Definition scripted (summary category action opportunities : string)
    (fail_at : option nat) : Services :=
  {| llm_invoke := fun _ => scripted_llm summary category action opportunities;
     search_run := fun h q =>
       if bool_decide (fail_at = Some (count_searches h)) then None
       else Some ("results for: " +:+ q);
     datetime_now := fun _ => noon;
     csv_DictReader := dict_reader |}.

Definition ledger2 : string :=
  "Vendor,Amount" +:+ CRLF +:+
  "AWS," +:+ dq +:+ "$1,200.00" +:+ dq +:+ CRLF +:+
  "Zoom,500" +:+ CRLF.

Definition ledger3 : string := ledger2 +:+ "Slack,75.50" +:+ CRLF.

Definition world0 (B : Builtins) (ledger : string) : World :=
  mkWorld [] {[ "vendors.csv" := ledger ]} [].

Definition input : gmap string value := {[ "input_file" := VStr "vendors.csv" ]}.

Definition quoted (s : string) : string := dq +:+ s +:+ dq.

Definition opportunity (vendor action explanation : string) : string :=
  quoted vendor +:+ "," +:+ quoted action +:+ "," +:+ quoted explanation +:+ NL.

Definition three_opportunities : string :=
  opportunity "AWS" "optimize" "$90K via contract renegotiation" +:+
  opportunity "Zoom" "terminate" "$6K savings, duplicate meeting tool" +:+
  opportunity "Slack" "consolidate: Zoom" "$1K savings".

(** Well-behaved collaborators. *)
Definition good : Services :=
  scripted "Cloud computing services." "Engineering"
           ("  Optimize " +:+ NL) three_opportunities None.

(** A model that classifies outside the department list. *)
Definition off_list : Services :=
  scripted "Cloud computing services." "Banana"
           ("  Optimize " +:+ NL) three_opportunities None.

(** A model that lists four opportunities, the last one short of a field. *)
Definition four_opportunities : string :=
  three_opportunities +:+ quoted "Okta" +:+ "," +:+ quoted "optimize" +:+ NL.

Definition chatty : Services :=
  scripted "Cloud computing services." "Engineering" "optimize"
           four_opportunities None.

(** A search that fails on its second call. *)
Definition flaky : Services :=
  scripted "Cloud computing services." "Engineering" "optimize"
           three_opportunities (Some 1).

(** Two records as the recommendation stage leaves them, in a list. *)
Definition record (vendor : string) (amount : nat) (action : string)
    : gmap string (scalar (B:=builtins)) :=
  {[ "Vendor" := SStr vendor;
     "Amount" := SFloat (B:=builtins) (mkDec amount EmptyString);
     "Description" := SStr "Cloud computing services.";
     "Category" := SStr "Engineering";
     "Action" := SStr action ]}.

Definition two_records : list (gmap string (scalar (B:=builtins))) :=
  [record "AWS" 1200 "optimize"; record "Zoom" 500 "terminate"].

Definition table_world : World :=
  mkWorld (OList [1; 2] :: map ODict two_records) ∅ [].

Definition aws_row : row :=
  {[ "Vendor" := Some "AWS"; "Amount" := Some "$1,200.00" ]}.

Definition empty_list_world : World (B:=builtins) := mkWorld [OList []] ∅ [].

(** The world after the enrichment of [ledger2] with [good]. *)
Definition enriched_world : World :=
  (analyze_vendors (B:=builtins) (Sv:=good) "vendors.csv"
     (world0 builtins ledger2)).2.

End Doubles.

(** * Properties *)

(** ** Amounts *)

Lemma str_replace_empty_filter old s :
  str_replace old EmptyString s =
  (fix del (s : string) : string :=
     match s with
     | EmptyString => EmptyString
     | String c s' => if Ascii.eqb c old then del s' else String c (del s')
     end) s.
Proof. induction s as [|c s IH]; simpl; [done|]. by rewrite IH. Qed.

Lemma strip_separators_replace s :
  str_replace "$"%char EmptyString (str_replace ","%char EmptyString s) =
  strip_separators s.
Proof.
  induction s as [|c s IH]; simpl; [done|].
  destruct (Ascii.eqb c ","%char) eqn:Ec; simpl.
  - by rewrite orb_true_r.
  - rewrite orb_false_r. destruct (Ascii.eqb c "$"%char); simpl; by rewrite IH.
Qed.

Lemma strip_separators_idem s :
  strip_separators (strip_separators s) = strip_separators s.
Proof.
  induction s as [|c s IH]; simpl; [done|].
  destruct (Ascii.eqb c "$"%char || Ascii.eqb c ","%char) eqn:E; simpl; [done|].
  by rewrite E, IH.
Qed.

Lemma str_app_cons c (a b : string) : String c a +:+ b = String c (a +:+ b).
Proof. reflexivity. Qed.

Lemma str_app_nil_l (b : string) : EmptyString +:+ b = b.
Proof. reflexivity. Qed.

Lemma str_app_assoc (a b c : string) : (a +:+ b) +:+ c = a +:+ (b +:+ c).
Proof.
  induction a as [|x a IH]; [done|]. by rewrite !str_app_cons, IH.
Qed.

Lemma str_app_nil_r (a : string) : a +:+ EmptyString = a.
Proof. induction a as [|x a IH]; [done|]. by rewrite str_app_cons, IH. Qed.

Lemma str_concat_empty_cons (x : string) xs :
  String.concat EmptyString (x :: xs) = x +:+ String.concat EmptyString xs.
Proof. destruct xs; simpl; [by rewrite str_app_nil_r | done]. Qed.

(** ** Writing a csv text and reading it back *)

Lemma csv_special_false c :
  csv_special c = false ->
  Ascii.eqb c ","%char = false /\ Ascii.eqb c "034"%char = false /\
  Ascii.eqb c CR = false /\ Ascii.eqb c LF = false.
Proof.
  unfold csv_special. intros H.
  apply orb_false_elim in H as [H H4]. apply orb_false_elim in H as [H H3].
  apply orb_false_elim in H as [H1 H2]. done.
Qed.

Lemma snoc_app cur c f : snoc cur c +:+ f = cur +:+ String c f.
Proof. unfold snoc. by rewrite str_app_assoc. Qed.

(** Inside an unquoted field, ordinary characters are taken as they are. *)
Lemma csv_read_plain f : forall rest cur rec,
  str_exists csv_special f = false ->
  csv_read (f +:+ rest) InField cur rec = csv_read rest InField (cur +:+ f) rec.
Proof.
  induction f as [|c f IH]; intros rest cur rec Hf.
  - by rewrite str_app_nil_l, str_app_nil_r.
  - simpl in Hf. apply orb_false_elim in Hf as [Hc Hf].
    apply csv_special_false in Hc as (H1 & H2 & H3 & H4).
    rewrite str_app_cons. cbn [csv_read]. rewrite H1, H2, H3, H4.
    by rewrite IH, snoc_app.
Qed.

(** Inside a quoted field, up to and including the closing quote. *)
Lemma csv_read_quoted f : forall rest cur rec,
  csv_read (csv_escape f +:+ dq +:+ rest) InQuoted cur rec =
  csv_read rest QuoteInQuoted (cur +:+ f) rec.
Proof.
  induction f as [|c f IH]; intros rest cur rec.
  - by rewrite str_app_nil_r.
  - cbn [csv_escape]. destruct (Ascii.eqb c "034"%char) eqn:Ec.
    + apply Ascii.eqb_eq in Ec as ->.
      rewrite !str_app_cons. cbn [csv_read]. simpl Ascii.eqb. cbn iota.
      by rewrite IH, snoc_app.
    + rewrite str_app_cons. cbn [csv_read]. rewrite Ec.
      by rewrite IH, snoc_app.
Qed.

(** A whole field as the writer writes it, from the start of a field. *)
Lemma csv_read_field f st rest rec :
  st = StartRecord \/ st = StartField ->
  csv_read (csv_field f +:+ rest) st EmptyString rec =
  match f with
  | EmptyString => csv_read rest st EmptyString rec
  | _ => csv_read rest
           (if str_exists csv_special f then QuoteInQuoted else InField) f rec
  end.
Proof.
  intros Hst. unfold csv_field.
  destruct (str_exists csv_special f) eqn:Hf.
  - rewrite !str_app_assoc. unfold dq at 1. rewrite str_app_cons, str_app_nil_l.
    assert (csv_read (String "034"%char (csv_escape f +:+ dq +:+ rest)) st
                     EmptyString rec =
            csv_read (csv_escape f +:+ dq +:+ rest) InQuoted EmptyString rec)
      as -> by (by destruct Hst as [-> | ->]).
    rewrite csv_read_quoted, str_app_nil_l.
    destruct f; [discriminate | done].
  - destruct f as [|c f]; [done|].
    simpl in Hf. apply orb_false_elim in Hf as [Hc Hf].
    apply csv_special_false in Hc as (H1 & H2 & H3 & H4).
    rewrite str_app_cons.
    assert (csv_read (String c (f +:+ rest)) st EmptyString rec =
            csv_read (f +:+ rest) InField (String c EmptyString) rec) as ->.
    { destruct Hst as [-> | ->]; cbn [csv_read]; by rewrite H1, H2, H3, H4. }
    by rewrite csv_read_plain.
Qed.

(** A field followed by the delimiter. *)
Lemma csv_read_field_comma f st rest rec :
  st = StartRecord \/ st = StartField ->
  csv_read (csv_field f +:+ String ","%char rest) st EmptyString rec =
  csv_read rest StartField EmptyString (rec ++ [f]).
Proof.
  intros Hst. rewrite csv_read_field by done.
  destruct f as [|c f].
  - by destruct Hst as [-> | ->].
  - by destruct (str_exists csv_special (String c f)).
Qed.

(** A field followed by the end of the row. *)
Lemma csv_read_field_crlf f st rest rec :
  st = StartField \/ (st = StartRecord /\ f <> EmptyString) ->
  csv_read (csv_field f +:+ CRLF +:+ rest) st EmptyString rec =
  (rec ++ [f]) :: csv_read rest StartRecord EmptyString [].
Proof.
  intros Hst. rewrite csv_read_field by tauto.
  destruct f as [|c f].
  - by destruct Hst as [-> | [_ ?]].
  - by destruct (str_exists csv_special (String c f)).
Qed.

Lemma csv_read_fields fs : forall f st rest rec,
  st = StartField \/ (st = StartRecord /\ f :: fs <> [EmptyString]) ->
  csv_read (String.concat "," (map csv_field (f :: fs)) +:+ CRLF +:+ rest)
           st EmptyString rec =
  (rec ++ f :: fs) :: csv_read rest StartRecord EmptyString [].
Proof.
  induction fs as [|g fs IH]; intros f st rest rec Hst.
  - cbn [map String.concat]. rewrite csv_read_field_crlf; [done|].
    destruct Hst as [-> | [-> Hne]]; [by left | right].
    split; [done|]. by intros ->.
  - change (String.concat "," (map csv_field (f :: g :: fs)))
      with (csv_field f +:+ "," +:+ String.concat "," (map csv_field (g :: fs))).
    rewrite !str_app_assoc, str_app_cons, str_app_nil_l.
    rewrite csv_read_field_comma by (destruct Hst as [-> | [-> _]]; auto).
    rewrite IH by (by left). by rewrite <- (assoc_L (++)).
Qed.

(** One written row is read back as that row. *)
Lemma csv_read_writerow fields rest :
  csv_read (csv_writerow fields +:+ rest) StartRecord EmptyString [] =
  fields :: csv_read rest StartRecord EmptyString [].
Proof.
  destruct fields as [|f fs]; [done|].
  destruct (decide (f :: fs = [EmptyString])) as [[= -> ->] | Hne]; [done|].
  assert (csv_writerow (f :: fs) =
          String.concat "," (map csv_field (f :: fs)) +:+ CRLF) as ->.
  { unfold csv_writerow. destruct f; [|done]. by destruct fs. }
  rewrite str_app_assoc, csv_read_fields by (by right). done.
Qed.

(** The reader undoes the writer. *)
Lemma csv_reader_writerows rows :
  csv_reader (String.concat EmptyString (map csv_writerow rows)) = rows.
Proof.
  unfold csv_reader. induction rows as [|r rows IH]; [done|].
  cbn [map]. by rewrite str_concat_empty_cons, csv_read_writerow, IH.
Qed.

Section Proofs.
Context {B : Builtins} {Sv : Services}.

Lemma parse_amount_strip s :
  parse_amount s =
  match float_of_str (strip_separators s) with
  | Some x => Ok x
  | None => Raise (ValueError ("could not convert string to float: " +:+ strip_separators s))
  end.
Proof. unfold parse_amount. by rewrite strip_separators_replace. Qed.

(** ** Running computations *)

Lemma bind_Ok {A C} (m : M A) (k : A -> M C) w c w' :
  bind m k w = (Ok c, w') <->
  exists a w1, m w = (Ok a, w1) /\ k a w1 = (Ok c, w').
Proof.
  unfold bind. split.
  - destruct (m w) as [[a|e] w1]; [eauto | discriminate].
  - intros (a & w1 & -> & Hk). done.
Qed.

Lemma bind_Raise {A C} (m : M A) (k : A -> M C) w e w' :
  bind m k w = (Raise e, w') <->
  m w = (Raise e, w') \/ exists a w1, m w = (Ok a, w1) /\ k a w1 = (Raise e, w').
Proof.
  unfold bind. split.
  - destruct (m w) as [[a|e1] w1]; [eauto | intros [= -> ->]; by left].
  - intros [-> | (a & w1 & -> & Hk)]; done.
Qed.

Lemma bind_run {A C} (m : M A) (k : A -> M C) w a w1 :
  m w = (Ok a, w1) -> bind m k w = k a w1.
Proof. unfold bind. by intros ->. Qed.

Lemma bind_run_raise {A C} (m : M A) (k : A -> M C) w e w1 :
  m w = (Raise e, w1) -> bind m k w = (Raise e, w1).
Proof. unfold bind. by intros ->. Qed.

Ltac inv_iff :=
  split; [ intros ?; by simplify_eq | intros [? ?]; by simplify_eq ].

Lemma ret_Ok {A} (a b : A) w w' : ret a w = (Ok b, w') <-> a = b /\ w' = w.
Proof. unfold ret. inv_iff. Qed.

Lemma lift_Ok {A} (r : Result A) a w w' : lift r w = (Ok a, w') <-> r = Ok a /\ w' = w.
Proof. destruct r; unfold lift, ret, raise; inv_iff. Qed.

Lemma getitem_Ok {V} (d : gmap string V) k v w w' :
  getitem d k w = (Ok v, w') <-> d !! k = Some v /\ w' = w.
Proof. unfold getitem. destruct (d !! k); unfold ret, raise; inv_iff. Qed.

Lemma expect_str_Ok v s w w' : expect_str v w = (Ok s, w') <-> v = VStr s /\ w' = w.
Proof. destruct v; unfold expect_str, ret, raise; inv_iff. Qed.

Lemma expect_ref_Ok v l w w' : expect_ref v w = (Ok l, w') <-> v = VRef l /\ w' = w.
Proof. destruct v; unfold expect_ref, ret, raise; inv_iff. Qed.

Lemma call_llm_Ok p r w w' :
  call_llm p w = (Ok r, w') <->
  llm_invoke (log w) p = Some r /\ w' = add_event (EvLLM p (Some r)) w.
Proof. unfold call_llm. destruct (llm_invoke (log w) p); inv_iff. Qed.

Lemma call_search_Ok q r w w' :
  call_search q w = (Ok r, w') <->
  search_run (log w) q = Some r /\ w' = add_event (EvSearch q (Some r)) w.
Proof. unfold call_search. destruct (search_run (log w) q); inv_iff. Qed.

Lemma load_dict_Ok l d w w' :
  load_dict l w = (Ok d, w') <-> heap w !! l = Some (ODict d) /\ w' = w.
Proof. unfold load_dict. destruct (heap w !! l) as [[|]|]; inv_iff. Qed.

Lemma load_list_Ok l items w w' :
  load_list l w = (Ok items, w') <-> heap w !! l = Some (OList items) /\ w' = w.
Proof. unfold load_list. destruct (heap w !! l) as [[|]|]; inv_iff. Qed.

Lemma read_file_Ok path content w w' :
  read_file path w = (Ok content, w') <-> files w !! path = Some content /\ w' = w.
Proof. unfold read_file. destruct (files w !! path); inv_iff. Qed.

Lemma chain_Ok t pv x r w w' :
  chain t pv x w = (Ok r, w') ->
  exists p, str_format t ((str <$> x) ∪ pv) = Ok p /\
            llm_invoke (log w) p = Some r /\
            w' = add_event (EvLLM p (Some r)) w.
Proof.
  unfold chain. intros (p & w1 & [Hp ->]%lift_Ok & [Hr ->]%call_llm_Ok)%bind_Ok.
  eauto.
Qed.

(** Take a successful run apart, one step at a time. *)
Ltac run_inv :=
  repeat match goal with
  | H : chain _ _ _ _ = (Ok _, _) |- _ =>
      apply chain_Ok in H; destruct H as (? & ? & ? & ?); subst
  | H : bind _ _ _ = (Ok _, _) |- _ =>
      apply bind_Ok in H; destruct H as (? & ? & ? & H)
  | H : ret _ _ = (Ok _, _) |- _ => apply ret_Ok in H; destruct H as [? ?]; subst
  | H : lift _ _ = (Ok _, _) |- _ => apply lift_Ok in H; destruct H as [? ?]; subst
  | H : getitem _ _ _ = (Ok _, _) |- _ => apply getitem_Ok in H; destruct H as [? ?]; subst
  | H : expect_str _ _ = (Ok _, _) |- _ => apply expect_str_Ok in H; destruct H as [? ?]; subst
  | H : expect_ref _ _ = (Ok _, _) |- _ => apply expect_ref_Ok in H; destruct H as [? ?]; subst
  | H : call_llm _ _ = (Ok _, _) |- _ => apply call_llm_Ok in H; destruct H as [? ?]; subst
  | H : call_search _ _ = (Ok _, _) |- _ => apply call_search_Ok in H; destruct H as [? ?]; subst
  | H : load_dict _ _ = (Ok _, _) |- _ => apply load_dict_Ok in H; destruct H as [? ?]; subst
  | H : load_list _ _ = (Ok _, _) |- _ => apply load_list_Ok in H; destruct H as [? ?]; subst
  | H : read_file _ _ = (Ok _, _) |- _ => apply read_file_Ok in H; destruct H as [? ?]; subst
  | H : emit _ _ = (Ok _, _) |- _ => injection H; clear H; intros; subst
  | H : print _ _ = (Ok _, _) |- _ => injection H; clear H; intros; subst
  | H : now _ = (Ok _, _) |- _ => injection H; clear H; intros; subst
  | H : open_w _ _ = (Ok _, _) |- _ => injection H; clear H; intros; subst
  | H : write _ _ _ = (Ok _, _) |- _ => injection H; clear H; intros; subst
  | H : alloc _ _ = (Ok _, _) |- _ => injection H; clear H; intros; subst
  | H : store _ _ _ = (Ok _, _) |- _ => injection H; clear H; intros; subst
  | u : unit |- _ => destruct u
  end.

(** ** What a computation leaves alone *)

Section Frame.
Context (R : World -> World -> Prop) {HR : FrameRel R}.

Let R_refl := frame_refl (R:=R).
Let R_trans := frame_trans (R:=R).
Let R_event := frame_event (R:=R).

Lemma preserves_ret {A} (a : A) : preserves R (ret a).
Proof. intros w r w' [= <- <-]. apply R_refl. Qed.

Lemma preserves_raise {A} e : preserves R (raise (A:=A) e).
Proof. intros w r w' [= <- <-]. apply R_refl. Qed.

Lemma preserves_bind {A C} (m : M A) (k : A -> M C) :
  preserves R m -> (forall a, preserves R (k a)) -> preserves R (bind m k).
Proof.
  intros Hm Hk w r w'. unfold bind.
  destruct (m w) as [[a|e] w1] eqn:E.
  - intros H. eapply R_trans; [eapply Hm, E | eapply Hk, H].
  - intros [= <- <-]. eapply Hm, E.
Qed.

Lemma preserves_lift {A} (r : Result A) : preserves R (lift r).
Proof. destruct r; [apply preserves_ret | apply preserves_raise]. Qed.

Lemma preserves_getitem {V} (d : gmap string V) k : preserves R (getitem d k).
Proof.
  unfold getitem. destruct (d !! k); [apply preserves_ret | apply preserves_raise].
Qed.

Lemma preserves_expect_str v : preserves R (expect_str v).
Proof. destruct v; [apply preserves_ret | apply preserves_raise]. Qed.

Lemma preserves_expect_ref v : preserves R (expect_ref v).
Proof. destruct v; [apply preserves_raise | apply preserves_ret]. Qed.

Lemma preserves_for_each {A} (body : A -> M unit) xs :
  (forall x, preserves R (body x)) -> preserves R (for_each xs body).
Proof.
  intros Hb. induction xs as [|x xs IH]; simpl.
  - apply preserves_ret.
  - apply preserves_bind; [apply Hb | intros _; apply IH].
Qed.

Lemma preserves_map_M {A C} (f : A -> M C) xs :
  (forall x, preserves R (f x)) -> preserves R (map_M f xs).
Proof.
  intros Hf. induction xs as [|x xs IH]; simpl.
  - apply preserves_ret.
  - apply preserves_bind; [apply Hf | intros y].
    apply preserves_bind; [apply IH | intros ys; apply preserves_ret].
Qed.

Lemma preserves_print line : preserves R (print line).
Proof. intros w r w' [= <- <-]. by apply R_event. Qed.

Lemma preserves_call_llm p : preserves R (call_llm p).
Proof.
  intros w r w'. unfold call_llm.
  destruct (llm_invoke (log w) p); intros [= <- <-]; by apply R_event.
Qed.

Lemma preserves_call_search q : preserves R (call_search q).
Proof.
  intros w r w'. unfold call_search.
  destruct (search_run (log w) q); intros [= <- <-]; by apply R_event.
Qed.

Lemma preserves_now : preserves R now.
Proof. intros w r w' [= <- <-]. apply R_refl. Qed.

Lemma preserves_read_file path : preserves R (read_file path).
Proof.
  intros w r w'. unfold read_file.
  destruct (files w !! path); intros [= <- <-]; apply R_refl.
Qed.

Lemma preserves_load_dict l : preserves R (load_dict l).
Proof.
  intros w r w'. unfold load_dict.
  destruct (heap w !! l) as [[|]|]; intros [= <- <-]; apply R_refl.
Qed.

Lemma preserves_load_list l : preserves R (load_list l).
Proof.
  intros w r w'. unfold load_list.
  destruct (heap w !! l) as [[|]|]; intros [= <- <-]; apply R_refl.
Qed.

Lemma preserves_chain t pv x : preserves R (chain t pv x).
Proof.
  unfold chain. apply preserves_bind; [apply preserves_lift | intros p].
  apply preserves_call_llm.
Qed.

Lemma preserves_analyze_pipeline x : preserves R (analyze_pipeline x).
Proof.
  unfold analyze_pipeline, assign, query_chain, search_step, summary_chain,
    classification_chain.
  repeat first
    [ apply preserves_ret | apply preserves_chain | apply preserves_call_search
    | apply preserves_getitem | apply preserves_bind; [|intros ?] ].
Qed.

End Frame.

Lemma file_events_app evs1 evs2 :
  file_events (evs1 ++ evs2) = file_events evs1 ++ file_events evs2.
Proof. apply List.filter_app. Qed.

#[local] Instance same_files_frame : FrameRel same_files.
Proof.
  split; unfold same_files.
  - done.
  - intros w1 w2 w3 [? ?] [? ?]. split; congruence.
  - intros e w He. split; [done|]. simpl.
    rewrite file_events_app. simpl. rewrite He. by rewrite app_nil_r.
Qed.

#[local] Instance same_heap_frame : FrameRel same_heap.
Proof. split; unfold same_heap; [done | congruence | done]. Qed.

Lemma action_added_refl o : action_added o o.
Proof. by left. Qed.

Lemma action_added_trans o1 o2 o3 :
  action_added o1 o2 -> action_added o2 o3 -> action_added o1 o3.
Proof.
  intros [-> | (d & a & -> & ->)] [-> | (d' & a' & Hd & ->)].
  - by left.
  - right. eauto.
  - right. eauto.
  - right. injection Hd as <-. exists d, a'. by rewrite insert_insert_eq.
Qed.

#[local] Instance action_only_frame : FrameRel action_only.
Proof.
  assert (Hrefl : forall h, Forall2 action_added h h).
  { intros h. apply Forall_Forall2_diag, Forall_forall.
    intros o _. apply action_added_refl. }
  split; unfold action_only.
  - intros w. apply Hrefl.
  - intros w1 w2 w3 H1 H2.
    eapply Forall2_trans; [|done..]. apply action_added_trans.
  - intros e w _. apply Hrefl.
Qed.

(** Solve [preserves R m] for a computation built from the steps above;
    [tac] deals with the steps that are specific to [R]. *)
Ltac frame_with tac :=
  repeat
    lazymatch goal with
    | |- preserves ?R _ =>
        first
          [ tac
          | apply (preserves_ret R) | apply (preserves_raise R)
          | apply (preserves_lift R) | apply (preserves_getitem R)
          | apply (preserves_expect_str R) | apply (preserves_expect_ref R)
          | apply (preserves_print R)
          | apply (preserves_call_llm R) | apply (preserves_call_search R)
          | apply (preserves_now R) | apply (preserves_read_file R)
          | apply (preserves_load_dict R) | apply (preserves_load_list R)
          | apply (preserves_chain R) | apply (preserves_analyze_pipeline R)
          | apply (preserves_for_each R); intros ?
          | apply (preserves_map_M R); intros ?
          | apply (preserves_bind R); [|intros ?] ]
    end.

Lemma alloc_files o : preserves same_files (alloc o).
Proof. intros w r w' [= <- <-]. by split. Qed.

Lemma store_files l o : preserves same_files (store l o).
Proof. intros w r w' [= <- <-]. by split. Qed.

Lemma open_w_heap path : preserves same_heap (open_w path).
Proof. by intros w r w' [= <- <-]. Qed.

Lemma write_heap path data : preserves same_heap (write path data).
Proof. by intros w r w' [= <- <-]. Qed.

(** Enrichment and recommendation never touch a file. *)
Lemma analyze_vendors_files path : preserves same_files (analyze_vendors path).
Proof.
  unfold analyze_vendors, analyze_vendors_body, append.
  frame_with ltac:(first [apply alloc_files | apply store_files]).
Qed.

Lemma recommend_actions_files l : preserves same_files (recommend_actions l).
Proof.
  unfold recommend_actions, recommend_actions_body, summary_line,
    recommendation_chain, setitem.
  frame_with ltac:(first [apply alloc_files | apply store_files]).
Qed.

(** The last two stages never touch the heap. *)
Lemma identify_top_opportunities_heap l :
  preserves same_heap (identify_top_opportunities l).
Proof.
  unfold identify_top_opportunities, action_line.
  frame_with ltac:(first [apply open_w_heap | apply write_heap]).
Qed.

Lemma save_to_csv_heap l : preserves same_heap (save_to_csv l).
Proof.
  unfold save_to_csv, writerow_dict.
  frame_with ltac:(first [apply open_w_heap | apply write_heap]).
Qed.

(** ** Exceptions: where they leave the world, and which they are *)

Lemma on_raise_bind {A C} R `{!FrameRel R} (m : M A) (k : A -> M C) :
  preserves R m -> (forall a, on_raise R (k a)) -> on_raise R (bind m k).
Proof.
  intros Hm Hk w e w' [H | (a & w1 & H1 & H2)]%bind_Raise.
  - eapply Hm, H.
  - eapply frame_trans; [eapply Hm, H1 | eapply Hk, H2].
Qed.

Lemma raises_only_bind {A C} P (m : M A) (k : A -> M C) :
  raises_only P m -> (forall a, raises_only P (k a)) -> raises_only P (bind m k).
Proof.
  intros Hm Hk w e w' [H | (a & w1 & H1 & H2)]%bind_Raise.
  - eapply Hm, H.
  - eapply Hk, H2.
Qed.

Lemma raises_only_for_each {A} P (body : A -> M unit) xs :
  (forall x, raises_only P (body x)) -> raises_only P (for_each xs body).
Proof.
  intros Hb. induction xs as [|x xs IH]; simpl.
  - intros w e w' [=].
  - apply raises_only_bind; [apply Hb | intros _; apply IH].
Qed.

Lemma raises_only_lift {A} P (r : Result A) :
  (forall e, r = Raise e -> P e) -> raises_only P (lift r).
Proof. intros H w e w'. destruct r; intros [= <- <-]. by apply H. Qed.

Lemma str_format_go_internal kw t field :
  internal_result (str_format_go kw t field).
Proof.
  remember (String.length t) as n eqn:Hn.
  revert t Hn field. induction n as [n IH] using lt_wf_ind.
  intros t -> field.
  assert (IH' : forall t', String.length t' < String.length t ->
            forall f, internal_result (str_format_go kw t' f)).
  { intros t' Hlt f. by eapply IH. }
  clear IH. rename IH' into IH.
  destruct t as [|c t]; simpl.
  - by destruct field.
  - assert (Ht : forall f, internal_result (str_format_go kw t f)).
    { intros f. apply IH. simpl. lia. }
    destruct field as [n|].
    + destruct (Ascii.eqb c "}"); [|apply Ht].
      destruct (kw !! n); [|done].
      specialize (Ht None). by destruct (str_format_go kw t None).
    + destruct (Ascii.eqb c "{").
      * destruct t as [|c2 t2]; [apply Ht|].
        destruct (Ascii.eqb c2 "{"); [|apply Ht].
        assert (H2 : internal_result (str_format_go kw t2 None)).
        { apply IH. simpl. lia. }
        by destruct (str_format_go kw t2 None).
      * destruct (Ascii.eqb c "}").
        -- destruct t as [|c2 t2]; [done|].
           destruct (Ascii.eqb c2 "}"); [|done].
           assert (H2 : internal_result (str_format_go kw t2 None)).
           { apply IH. simpl. lia. }
           by destruct (str_format_go kw t2 None).
        -- specialize (Ht None). by destruct (str_format_go kw t None).
Qed.

Lemma str_format_internal t kw : internal_result (str_format t kw).
Proof. apply str_format_go_internal. Qed.

Lemma amount_of_internal cell : internal_result (amount_of cell).
Proof.
  destruct cell as [s|]; simpl; [|done].
  unfold parse_amount. by destruct (float_of_str _).
Qed.

Lemma dict_to_list_internal d : internal_result (dict_to_list d).
Proof. unfold dict_to_list. by case_bool_decide. Qed.

(** ** The abort discipline *)

Lemma clean_app evs1 evs2 : clean evs1 -> clean evs2 -> clean (evs1 ++ evs2).
Proof. apply Forall_app_2. Qed.

Lemma outcome_app {A} (r : Result A) evs1 evs2 :
  clean evs1 -> outcome r evs2 -> outcome r (evs1 ++ evs2).
Proof.
  intros H1. destruct r as [a|e]; simpl; [by apply clean_app|].
  destruct e; try by apply clean_app.
  intros (evs0 & c & -> & H0 & Hc).
  exists (evs1 ++ evs0), c. rewrite (assoc_L (++)). auto using clean_app.
Qed.

Lemma sound_pure {A} (r : Result A) (m : M A) :
  internal_result r -> (forall w, m w = (r, w)) -> sound m.
Proof.
  intros Hr Hm w r' w'. rewrite Hm. intros [= <- <-].
  exists []. rewrite app_nil_r. split; [done|].
  destruct r as [a|e]; simpl; [constructor|].
  destruct e; simpl in *; try constructor. done.
Qed.

Lemma sound_ret {A} (a : A) : sound (ret a).
Proof. by apply (sound_pure (Ok a)). Qed.

Lemma sound_lift {A} (r : Result A) : internal_result r -> sound (lift r).
Proof. intros Hr. apply (sound_pure r); [done|]. by destruct r. Qed.

Lemma sound_getitem {V} (d : gmap string V) k : sound (getitem d k).
Proof.
  unfold getitem. destruct (d !! k) as [v|].
  - apply sound_ret.
  - by apply (sound_pure (Raise (KeyError k))).
Qed.

Lemma sound_expect_str v : sound (expect_str v).
Proof.
  destruct v; [apply sound_ret|].
  by eapply (sound_pure (Raise (TypeError _))).
Qed.

Lemma sound_expect_ref v : sound (expect_ref v).
Proof.
  destruct v; [|apply sound_ret].
  by eapply (sound_pure (Raise (TypeError _))).
Qed.

Lemma sound_bind {A C} (m : M A) (k : A -> M C) :
  sound m -> (forall a, sound (k a)) -> sound (bind m k).
Proof.
  intros Hm Hk w r w'. unfold bind.
  destruct (m w) as [[a|e] w1] eqn:E.
  - intros H. destruct (Hm _ _ _ E) as (evs1 & Hl1 & Ho1).
    destruct (Hk _ _ _ _ H) as (evs2 & Hl2 & Ho2).
    exists (evs1 ++ evs2). split.
    + by rewrite Hl2, Hl1, (assoc_L (++)).
    + by apply outcome_app.
  - intros [= <- <-]. apply (Hm _ _ _ E).
Qed.

Lemma sound_for_each {A} (body : A -> M unit) xs :
  (forall x, sound (body x)) -> sound (for_each xs body).
Proof.
  intros Hb. induction xs as [|x xs IH]; simpl.
  - apply sound_ret.
  - apply sound_bind; [apply Hb | intros _; apply IH].
Qed.

Lemma sound_map_M {A C} (f : A -> M C) xs :
  (forall x, sound (f x)) -> sound (map_M f xs).
Proof.
  intros Hf. induction xs as [|x xs IH]; simpl.
  - apply sound_ret.
  - apply sound_bind; [apply Hf | intros y].
    apply sound_bind; [apply IH | intros ys; apply sound_ret].
Qed.

Lemma sound_quiet {A} (m : M A) :
  (forall w, exists r e w', m w = (r, w') /\ log w' = log w ++ [e] /\
                            internal_result r /\ failed_call e = false) ->
  sound m.
Proof.
  intros Hm w r w' H. destruct (Hm w) as (r0 & e & w0 & Hr & Hl & Hi & He).
  rewrite Hr in H. injection H as <- <-.
  exists [e]. split; [done|].
  assert (clean [e]) by (by constructor).
  destruct r0 as [a|x]; simpl; [done|]. by destruct x.
Qed.

Lemma sound_print line : sound (print line).
Proof. apply sound_quiet. intros w. by eexists (Ok tt), (EvPrint line), _. Qed.

Lemma sound_call_llm p : sound (call_llm p).
Proof.
  intros w r w'. unfold call_llm.
  destruct (llm_invoke (log w) p) as [s|]; intros [= <- <-]; eexists [_].
  - split; [done|]. by constructor.
  - split; [done|]. exists [], (EvLLM p None). split; [done|]. split; [constructor|done].
Qed.

Lemma sound_call_search q : sound (call_search q).
Proof.
  intros w r w'. unfold call_search.
  destruct (search_run (log w) q) as [s|]; intros [= <- <-]; eexists [_].
  - split; [done|]. by constructor.
  - split; [done|]. exists [], (EvSearch q None). split; [done|]. split; [constructor|done].
Qed.

Lemma sound_same_log {A} (m : M A) :
  (forall w r w', m w = (r, w') -> log w' = log w /\ internal_result r) -> sound m.
Proof.
  intros Hm w r w' H. destruct (Hm _ _ _ H) as [Hl Hr].
  exists []. rewrite app_nil_r. split; [done|].
  destruct r as [a|e]; simpl; [constructor|].
  destruct e; simpl in *; try constructor. done.
Qed.

Lemma sound_now : sound now.
Proof. apply sound_same_log. by intros w r w' [= <- <-]. Qed.

Lemma sound_read_file path : sound (read_file path).
Proof.
  apply sound_same_log. intros w r w'. unfold read_file.
  by destruct (files w !! path); intros [= <- <-].
Qed.

Lemma sound_load_dict l : sound (load_dict l).
Proof.
  apply sound_same_log. intros w r w'. unfold load_dict.
  by destruct (heap w !! l) as [[|]|]; intros [= <- <-].
Qed.

Lemma sound_load_list l : sound (load_list l).
Proof.
  apply sound_same_log. intros w r w'. unfold load_list.
  by destruct (heap w !! l) as [[|]|]; intros [= <- <-].
Qed.

Lemma sound_alloc o : sound (alloc o).
Proof. apply sound_same_log. by intros w r w' [= <- <-]. Qed.

Lemma sound_store l o : sound (store l o).
Proof. apply sound_same_log. by intros w r w' [= <- <-]. Qed.

Lemma sound_open_w path : sound (open_w path).
Proof. apply sound_quiet. intros w. by eexists (Ok tt), (EvOpen path), _. Qed.

Lemma sound_write path data : sound (write path data).
Proof. apply sound_quiet. intros w. by eexists (Ok tt), (EvWrite path data), _. Qed.

Lemma sound_chain t pv x : sound (chain t pv x).
Proof.
  unfold chain. apply sound_bind; [|intros p; apply sound_call_llm].
  apply sound_lift, str_format_internal.
Qed.

Ltac sound_steps :=
  repeat first
    [ apply sound_ret | apply sound_getitem | apply sound_expect_str
    | apply sound_expect_ref | apply sound_print | apply sound_call_llm
    | apply sound_call_search | apply sound_now | apply sound_read_file
    | apply sound_load_dict | apply sound_load_list | apply sound_alloc
    | apply sound_store | apply sound_open_w | apply sound_write
    | apply sound_chain
    | apply sound_lift;
        first [ apply str_format_internal | apply amount_of_internal
              | apply dict_to_list_internal ]
    | apply sound_for_each; intros ?
    | apply sound_map_M; intros ?
    | apply sound_bind; [|intros ?] ].

Lemma sound_full_pipeline x : sound (full_pipeline x).
Proof.
  unfold full_pipeline, save_results_tool, identify_opportunities_tool,
    add_actions_tool, process_vendors_tool, assign, save_to_csv, writerow_dict,
    identify_top_opportunities, action_line, recommend_actions,
    recommend_actions_body, recommendation_chain, summary_line, setitem,
    analyze_vendors, analyze_vendors_body, append, analyze_pipeline,
    query_chain, search_step, summary_chain, classification_chain.
  sound_steps.
Qed.

(** ** Persistence raises no call failure; a failed opportunity stage
    writes nothing *)

Lemma raises_only_total {A} P (m : M A) :
  (forall w, exists a w', m w = (Ok a, w')) -> raises_only P m.
Proof. intros Hm w e w' H. destruct (Hm w) as (a & w1 & Hr). congruence. Qed.

Lemma raises_only_getitem {V} (d : gmap string V) k : raises_only internal (getitem d k).
Proof. unfold getitem. intros w e w'. by destruct (d !! k); intros [= <- <-]. Qed.

Lemma raises_only_expect_ref v : raises_only internal (expect_ref v).
Proof. intros w e w'. by destruct v; intros [= <- <-]. Qed.

Lemma raises_only_load_dict l : raises_only internal (load_dict l).
Proof.
  intros w e w'. unfold load_dict.
  by destruct (heap w !! l) as [[|]|]; intros [= <- <-].
Qed.

Lemma raises_only_load_list l : raises_only internal (load_list l).
Proof.
  intros w e w'. unfold load_list.
  by destruct (heap w !! l) as [[|]|]; intros [= <- <-].
Qed.

Lemma raises_only_lift_internal {A} (r : Result A) :
  internal_result r -> raises_only internal (lift r).
Proof. intros Hr. apply raises_only_lift. by intros e ->. Qed.

Lemma save_results_tool_internal x : raises_only internal (save_results_tool x).
Proof.
  unfold save_results_tool, save_to_csv, writerow_dict.
  repeat first
    [ apply raises_only_getitem | apply raises_only_expect_ref
    | apply raises_only_load_dict | apply raises_only_load_list
    | apply raises_only_lift_internal, dict_to_list_internal
    | apply raises_only_total; intros w; by eexists _, _
    | apply raises_only_for_each; intros r
    | apply raises_only_bind; [|intros ?] ].
Qed.

Lemma on_raise_bind_total {A C} R (m : M A) (k : A -> M C) :
  on_raise R m -> (forall a w, exists c w', k a w = (Ok c, w')) ->
  on_raise R (bind m k).
Proof.
  intros Hm Hk w e w' [H | (a & w1 & H1 & H2)]%bind_Raise.
  - eapply Hm, H.
  - destruct (Hk a w1) as (c & w2 & Hc). congruence.
Qed.

Lemma identify_top_opportunities_raise l :
  on_raise same_files (identify_top_opportunities l).
Proof.
  unfold identify_top_opportunities, action_line.
  repeat (apply on_raise_bind; [apply _ | solve [frame_with fail] | intros ?]).
  intros w e w'. discriminate.
Qed.

Lemma process_vendors_tool_files x : preserves same_files (process_vendors_tool x).
Proof.
  unfold process_vendors_tool, assign.
  frame_with ltac:(apply analyze_vendors_files).
Qed.

Lemma add_actions_tool_files x : preserves same_files (add_actions_tool x).
Proof.
  unfold add_actions_tool, assign.
  frame_with ltac:(apply recommend_actions_files).
Qed.

Lemma identify_opportunities_tool_raise x :
  on_raise same_files (identify_opportunities_tool x).
Proof.
  unfold identify_opportunities_tool, assign.
  apply on_raise_bind_total; [|intros v w; by eexists _, _].
  repeat (apply on_raise_bind; [apply _ | solve [frame_with fail] | intros ?]).
  apply on_raise_bind_total; [|intros v w; by eexists _, _].
  apply identify_top_opportunities_raise.
Qed.

(** A run that raises a call failure has written no file. *)
Lemma full_pipeline_abort_files x w e w' :
  full_pipeline x w = (Raise e, w') -> ~ internal e -> same_files w w'.
Proof.
  unfold full_pipeline. intros H He.
  apply bind_Raise in H as [H | (x1 & w1 & H1 & H)].
  { eapply process_vendors_tool_files, H. }
  pose proof (process_vendors_tool_files _ _ _ _ H1) as F1.
  apply bind_Raise in H as [H | (x2 & w2 & H2 & H)].
  { eapply frame_trans; [apply F1 | eapply add_actions_tool_files, H]. }
  pose proof (add_actions_tool_files _ _ _ _ H2) as F2.
  apply bind_Raise in H as [H | (x3 & w3 & H3 & H)].
  { eapply frame_trans; [apply F1|]. eapply frame_trans; [apply F2|].
    eapply identify_opportunities_tool_raise, H. }
  destruct He. eapply save_results_tool_internal, H.
Qed.

(** ** The recommendation stage only sets Action *)

Lemma setitem_action_only r a : preserves action_only (setitem r "Action" (SStr a)).
Proof.
  intros w res w'. unfold setitem, bind, load_dict, store.
  destruct (heap w !! r) as [[d|items]|] eqn:E; intros [= <- <-];
    try apply (frame_refl (R:=action_only)).
  unfold action_only. simpl.
  apply Forall2_same_length_lookup_2; [by rewrite length_insert|].
  intros i o o' H1 H2. destruct (decide (i = r)) as [->|Hne].
  - rewrite list_lookup_insert_eq in H2 by (by eapply lookup_lt_Some).
    simplify_eq. right. eauto.
  - rewrite list_lookup_insert_ne in H2 by done. simplify_eq. by left.
Qed.

Lemma recommend_actions_action_only l : preserves action_only (recommend_actions l).
Proof.
  unfold recommend_actions, recommend_actions_body, summary_line,
    recommendation_chain.
  frame_with ltac:(apply setitem_action_only).
Qed.

Lemma recommend_actions_returns l w l' w' :
  recommend_actions l w = (Ok l', w') -> l' = l.
Proof. unfold recommend_actions. intros H. by run_inv. Qed.

Lemma action_added_list o o' items :
  action_added o o' -> o = OList items -> o' = OList items.
Proof. intros [-> | (d & a & -> & ->)]; [done | discriminate]. Qed.

Lemma action_added_dict o o' d :
  action_added o o' -> o = ODict d ->
  exists d', o' = ODict d' /\ forall k, k <> "Action" -> d' !! k = d !! k.
Proof.
  intros [-> | (d0 & a & -> & ->)] Hd.
  - eauto.
  - injection Hd as ->. eexists. split; [done|].
    intros k Hk. by rewrite lookup_insert_ne.
Qed.

(** C8: whatever the recommendation stage returns or raises, it touches no
    file, allocates and frees nothing, leaves every list of records with
    the same references, and leaves the Vendor, Amount, Category and
    Description of every record (every key but Action) as they were; when
    it returns, it returns the list it was given. *)
Theorem recommendation_only_adds_action l w r w' :
  recommend_actions l w = (r, w') ->
  files w' = files w /\
  length (heap w') = length (heap w) /\
  (forall p items, heap w !! p = Some (OList items) ->
                   heap w' !! p = Some (OList items)) /\
  (forall p d, heap w !! p = Some (ODict d) ->
     exists d', heap w' !! p = Some (ODict d') /\
       d' !! "Vendor" = d !! "Vendor" /\ d' !! "Amount" = d !! "Amount" /\
       d' !! "Category" = d !! "Category" /\
       d' !! "Description" = d !! "Description" /\
       forall k, k <> "Action" -> d' !! k = d !! k) /\
  (forall l', r = Ok l' -> l' = l).
Proof.
  intros H.
  pose proof (recommend_actions_files _ _ _ _ H) as [Hf _].
  pose proof (recommend_actions_action_only _ _ _ _ H) as Ha.
  unfold action_only in Ha.
  split; [done|]. split; [symmetry; by eapply Forall2_length|].
  split; [|split].
  - intros p items Hp.
    destruct (Forall2_lookup_l _ _ _ _ _ Ha Hp) as (o' & Ho' & Hoo).
    rewrite Ho'. f_equal. by eapply action_added_list.
  - intros p d Hp.
    destruct (Forall2_lookup_l _ _ _ _ _ Ha Hp) as (o' & Ho' & Hoo).
    destruct (action_added_dict _ _ _ Hoo eq_refl) as (d' & -> & Hk).
    exists d'. split; [done|]. repeat split; by apply Hk.
  - intros l' ->. by eapply recommend_actions_returns.
Qed.

(** ** A failed call aborts the run *)

(** C3: in a run of the pipeline in which some call to the model or to the
    search fails, the failed call is the last thing the run does (no later
    call, print or write: no later vendor is processed), the run ends
    with the exception of that call, and no file is opened or written. *)
Theorem external_failure_aborts_run x w r w' evs :
  full_pipeline x w = (r, w') ->
  log w' = log w ++ evs ->
  Exists (fun c => failed_call c = true) evs ->
  exists evs0 c e,
    evs = evs0 ++ [c] /\ clean evs0 /\ raised_by c = Some e /\
    r = Raise e /\
    files w' = files w /\ file_events evs = [].
Proof.
  intros H Hl Hex.
  destruct (sound_full_pipeline _ _ _ _ H) as (evs' & Hl' & Ho).
  assert (evs' = evs) as -> by (apply (app_inv_head (log w)); congruence).
  assert (Hnc : ~ clean evs).
  { intros Hc. apply Exists_exists in Hex as (c & Hin & Hc').
    unfold clean in Hc. rewrite Forall_forall in Hc.
    specialize (Hc c Hin). congruence. }
  destruct r as [a|e]; simpl in Ho; [done|].
  destruct e; try done.
  destruct Ho as (evs0 & c & -> & H0 & Hc).
  exists evs0, c, (ExternalCallError service request).
  destruct (full_pipeline_abort_files _ _ _ _ H) as [Hf Hfe]; [by intros []|].
  repeat split; try done.
  rewrite Hl, file_events_app in Hfe.
  apply (app_inv_head (file_events (log w))). by rewrite app_nil_r.
Qed.

(** ** Enrichment, when it succeeds *)

Lemma log_add_event e w : log (add_event e w) = log w ++ [e].
Proof. done. Qed.

Lemma analyze_pipeline_Ok x w x' w' :
  analyze_pipeline x w = (Ok x', w') ->
  exists p1 q sr p3 desc p4 cat,
    classification_prompt p4 /\
    x' = <["category" := SStr cat]>
           (<["service_description" := SStr desc]>
              (<["search_results" := SStr sr]>
                 (<["search_query" := SStr q]> x))) /\
    w' = add_event (EvLLM p4 (Some cat))
           (add_event (EvLLM p3 (Some desc))
              (add_event (EvSearch q (Some sr))
                 (add_event (EvLLM p1 (Some q)) w))).
Proof.
  unfold analyze_pipeline, assign, query_chain, search_step, summary_chain,
    classification_chain.
  intros H. run_inv. simplify_map_eq.
  eexists _, _, _, _, _, _, _. split; [by eexists|]. done.
Qed.

Lemma analyze_vendors_body_Ok l v w w' :
  analyze_vendors_body l v w = (Ok tt, w') ->
  exists items d evs,
    heap w !! l = Some (OList items) /\
    enriched v d evs /\
    heap w' = <[l := OList (items ++ [length (heap w)])]> (heap w ++ [ODict d]) /\
    files w' = files w /\
    log w' = log w ++ evs.
Proof.
  unfold analyze_vendors_body, append. intros H. run_inv.
  match goal with
  | H : analyze_pipeline _ _ = (Ok _, _) |- _ =>
      apply analyze_pipeline_Ok in H
        as (p1 & q & sr & p3 & desc & p4 & cat & Hp4 & -> & ->)
  end.
  simplify_map_eq.
  match goal with
  | H : amount_of ?c = Ok _ |- _ => destruct c as [raw|]; [simpl in H|done]
  end.
  match goal with
  | H : (heap w ++ _) !! l = Some (OList ?its) |- _ =>
      rename H into Hl; exists its;
      assert (heap w !! l = Some (OList its)) as Hl'
  end.
  { destruct (decide (l < length (heap w))) as [Hlt|Hge].
    - by rewrite lookup_app_l in Hl.
    - apply lookup_lt_Some in Hl as Hlt. rewrite length_app in Hlt. simpl in Hlt.
      assert (l = length (heap w)) as -> by lia.
      by rewrite list_lookup_middle in Hl. }
  eexists _, _. split; [done|]. split.
  { eexists _, raw, _, p1, q, sr, p3, desc, p4, cat. repeat split; done. }
  split; [done|]. split; [done|].
  by rewrite <- !(assoc_L (++)).
Qed.

(** The loop of [analyze_vendors]: the list at [l] grows by one record per
    ledger row, in the order of the ledger. *)
Lemma analyze_vendors_loop l vendors : forall w w' h0 recs,
  for_each vendors (analyze_vendors_body l) w = (Ok tt, w') ->
  l = length h0 ->
  heap w = h0 ++ OList (seq (S l) (length recs)) :: map ODict recs ->
  exists recs' evss,
    Forall2 (fun v '(d, evs) => enriched v d evs) vendors (zip recs' evss) /\
    length recs' = length vendors /\ length evss = length vendors /\
    heap w' = h0 ++ OList (seq (S l) (length (recs ++ recs')))
                 :: map ODict (recs ++ recs') /\
    files w' = files w /\
    log w' = log w ++ concat evss.
Proof.
  induction vendors as [|v vendors IH]; intros w w' h0 recs H Hl Hh; simpl in H.
  - injection H as <-. exists [], []. simpl. rewrite !app_nil_r.
    repeat split; [constructor | done..].
  - apply bind_Ok in H as ([] & w1 & Hb & H).
    apply analyze_vendors_body_Ok in Hb
      as (items & d & evs & Hit & Hen & Hh1 & Hf1 & Hl1).
    assert (items = seq (S l) (length recs)) as ->.
    { rewrite Hh, (list_lookup_middle _ _ _ l Hl) in Hit. by injection Hit. }
    assert (Hlen : length (heap w) = S l + length recs).
    { rewrite Hh, length_app. simpl. rewrite length_map. lia. }
    assert (Hh1' : heap w1 = h0 ++ OList (seq (S l) (length (recs ++ [d])))
                              :: map ODict (recs ++ [d])).
    { rewrite Hh1, Hlen, Hh. rewrite <- (assoc_L (++)). simpl.
      rewrite insert_app_r_alt by lia.
      replace (l - length h0) with 0 by lia. simpl. f_equal.
      rewrite length_app, map_app. simpl. rewrite seq_app. simpl.
      repeat f_equal; lia. }
    destruct (IH _ _ _ _ H Hl Hh1')
      as (recs' & evss & HF & Hn1 & Hn2 & Hh' & Hf' & Hl').
    exists (d :: recs'), (evs :: evss). simpl.
    split; [by constructor|]. split; [by f_equal|]. split; [by f_equal|].
    rewrite <- (assoc_L (++)) in Hh'. simpl in Hh'.
    split; [done|]. split; [congruence|].
    by rewrite Hl', Hl1, (assoc_L (++)).
Qed.

Lemma analyze_vendors_Ok path w l w' :
  analyze_vendors path w = (Ok l, w') ->
  exists content recs evss,
    files w !! path = Some content /\
    l = length (heap w) /\
    Forall2 (fun v '(d, evs) => enriched v d evs)
            (csv_DictReader content) (zip recs evss) /\
    length recs = length (csv_DictReader content) /\
    length evss = length (csv_DictReader content) /\
    heap w' = heap w ++ OList (seq (S l) (length recs)) :: map ODict recs /\
    files w' = files w /\
    log w' = log w ++ concat evss.
Proof.
  unfold analyze_vendors. intros H. run_inv.
  match goal with
  | H : for_each _ _ _ = (Ok _, _) |- _ =>
      eapply (analyze_vendors_loop _ _ _ _ (heap w) []) in H
        as (recs & evss & HF & Hn1 & Hn2 & Hh & Hf & Hl); [|done..]
  end.
  simpl in *. eexists _, recs, evss. repeat split; done.
Qed.

(** ** Recommendation, when it succeeds *)

Lemma recommend_actions_body_Ok vendor_summary r w w' :
  recommend_actions_body vendor_summary r w = (Ok tt, w') ->
  exists d p resp,
    heap w !! r = Some (ODict d) /\
    recommendation_prompt p /\
    llm_invoke (log w) p = Some resp /\
    heap w' = <[r := ODict (<["Action" := SStr (str_lower (str_strip resp))]> d)]> (heap w) /\
    heap w' !! r = Some (ODict (<["Action" := SStr (str_lower (str_strip resp))]> d)) /\
    files w' = files w /\
    log w' = log w ++ [ EvLLM p (Some resp);
                        EvPrint ("recommending action for vendor: " +:+
                                 str (default SNone (d !! "Vendor")) +:+ " - " +:+
                                 str_lower (str_strip resp)) ].
Proof.
  unfold recommend_actions_body, recommendation_chain, setitem.
  intros H. run_inv. simpl in *. simplify_eq.
  eexists _, _, _. split; [done|]. split; [by eexists|]. split; [done|].
  split; [done|]. split.
  { apply list_lookup_insert_eq. by eapply lookup_lt_Some. }
  split; [done|].
  match goal with H : _ !! "Vendor" = Some _ |- _ => rewrite H end.
  simpl. by rewrite <- (assoc_L (++)).
Qed.

Lemma recommend_actions_loop vendor_summary items : forall w w',
  for_each items (recommend_actions_body vendor_summary) w = (Ok tt, w') ->
  exists evs,
    log w' = log w ++ evs /\
    files w' = files w /\
    (forall p, p ∉ items -> heap w' !! p = heap w !! p) /\
    (forall r, r ∈ items ->
       exists d a, heap w !! r = Some (ODict d) /\
                   heap w' !! r = Some (ODict (<["Action" := SStr a]> d)) /\
                   action_from a evs).
Proof.
  induction items as [|r items IH]; intros w w' H; simpl in H.
  - injection H as <-. exists []. rewrite app_nil_r.
    split; [done|]. split; [done|]. split; [done|].
    intros r Hr. by apply elem_of_nil in Hr.
  - apply bind_Ok in H as ([] & w1 & Hb & H).
    apply recommend_actions_body_Ok in Hb
      as (d & p & resp & Hd & Hp & Hr & Hh1 & Hr1 & Hf1 & Hl1).
    destruct (IH _ _ H) as (evs & Hl & Hf & Hout & Hin).
    eexists (_ ++ evs). split; [by rewrite Hl, Hl1, (assoc_L (++))|].
    split; [congruence|]. split.
    + intros q Hq. apply not_elem_of_cons in Hq as [Hne Hq].
      rewrite (Hout q Hq), Hh1. by rewrite list_lookup_insert_ne.
    + intros x Hx.
      assert (Hfrom : action_from (str_lower (str_strip resp))
                ([EvLLM p (Some resp);
                  EvPrint ("recommending action for vendor: " +:+
                    str (default SNone (d !! "Vendor")) +:+ " - " +:+
                    str_lower (str_strip resp))] ++ evs)).
      { exists p, resp. split; [done|]. split; [|done].
        apply elem_of_app. left. apply elem_of_cons. by left. }
      destruct (decide (x ∈ items)) as [Hxi|Hxi].
      * destruct (Hin x Hxi) as (d1 & a & Hd1 & Hd' & (p' & resp' & ? & ? & ?)).
        assert (Ha : action_from a (([EvLLM p (Some resp);
                  EvPrint ("recommending action for vendor: " +:+
                    str (default SNone (d !! "Vendor")) +:+ " - " +:+
                    str_lower (str_strip resp))]) ++ evs)).
        { exists p', resp'. split; [done|]. split; [|done].
          apply elem_of_app. by right. }
        destruct (decide (x = r)) as [->|Hne].
        -- rewrite Hr1 in Hd1. injection Hd1 as <-.
           exists d, a. rewrite insert_insert_eq in Hd'. done.
        -- exists d1, a. rewrite Hh1, list_lookup_insert_ne in Hd1 by done. done.
      * apply elem_of_cons in Hx as [->|Hx]; [|done].
        exists d, (str_lower (str_strip resp)).
        rewrite (Hout r Hxi). done.
Qed.

Lemma recommend_actions_Ok l w l' w' :
  recommend_actions l w = (Ok l', w') ->
  exists items evs,
    l' = l /\
    heap w !! l = Some (OList items) /\
    log w' = log w ++ evs /\
    files w' = files w /\
    length (heap w') = length (heap w) /\
    (forall p, p ∉ items -> heap w' !! p = heap w !! p) /\
    (forall r, r ∈ items ->
       exists d a, heap w !! r = Some (ODict d) /\
                   heap w' !! r = Some (ODict (<["Action" := SStr a]> d)) /\
                   action_from a evs).
Proof.
  intros H.
  pose proof (recommend_actions_action_only _ _ _ _ H) as Hlen%Forall2_length.
  revert H. unfold recommend_actions. intros H.
  apply bind_Ok in H as (items & w0 & [Hit ->]%load_list_Ok & H).
  apply bind_Ok in H as (lines & w1 & Hlines & H).
  apply bind_Ok in H as ([] & w2 & H & [<- ->]%ret_Ok).
  assert (Hw1 : w1 = w).
  { clear H. revert lines w1 Hlines. generalize items at 1 as its.
    induction its as [|r its IH]; intros lines w1 Hl; simpl in Hl.
    - by injection Hl as <- <-.
    - unfold summary_line in Hl at 1. run_inv. eauto. }
  subst w1.
  destruct (recommend_actions_loop _ _ _ _ H) as (evs & ? & ? & ? & ?).
  exists items, evs. repeat split; done.
Qed.

(** C5: when the loop of the recommendation stage has handled the record
    at [r], the record is the one it was with Action set to the answer of
    the model to the recommendation prompt, trimmed and lowercased; the
    answer is taken as it comes, whatever it is, and no other field of the
    record changes. *)
Theorem action_is_trimmed_lowercased_response vendor_summary r w w' :
  recommend_actions_body vendor_summary r w = (Ok tt, w') ->
  exists d p resp,
    heap w !! r = Some (ODict d) /\
    recommendation_prompt p /\
    llm_invoke (log w) p = Some resp /\
    heap w' !! r =
      Some (ODict (<["Action" := SStr (str_lower (str_strip resp))]> d)) /\
    (forall k, k <> "Action" ->
       (<["Action" := SStr (str_lower (str_strip resp))]> d) !! k = d !! k) /\
    EvLLM p (Some resp) ∈ drop (length (log w)) (log w').
Proof.
  intros H. apply recommend_actions_body_Ok in H
    as (d & p & resp & Hd & Hp & Hr & _ & Hh & _ & Hl).
  exists d, p, resp. repeat split; try done.
  - intros k Hk. by rewrite lookup_insert_ne.
  - rewrite Hl, drop_app_length. apply list_elem_of_here.
Qed.

(** ** Opportunities and persistence *)

Lemma map_M_same_world {A C} (f : A -> M C) xs :
  (forall x w y w', f x w = (Ok y, w') -> w' = w) ->
  forall w ys w', map_M f xs w = (Ok ys, w') -> w' = w.
Proof.
  intros Hf. induction xs as [|x xs IH]; intros w ys w' H; simpl in H.
  - by injection H as <- <-.
  - apply bind_Ok in H as (y & w1 & Hy & H).
    apply bind_Ok in H as (ys' & w2 & Hys & [<- ->]%ret_Ok).
    apply Hf in Hy as ->. by apply IH in Hys.
Qed.

Lemma action_line_same_world r w y w' : action_line r w = (Ok y, w') -> w' = w.
Proof. unfold action_line. intros H. by run_inv. Qed.

Lemma write_after_open (fs : gmap string string) name data :
  <[name := default EmptyString (<[name := EmptyString]> fs !! name) +:+ data]>
    (<[name := EmptyString]> fs) = <[name := data]> fs.
Proof. rewrite lookup_insert_eq. simpl. by rewrite str_app_nil_l, insert_insert_eq. Qed.

Lemma identify_top_opportunities_Ok l w s w' :
  identify_top_opportunities l w = (Ok s, w') ->
  exists p,
    let h1 := log w ++ [EvPrint "identifying opportunities"] in
    let name := opportunities_name (datetime_now (h1 ++ [EvLLM p (Some s)])) in
    llm_invoke h1 p = Some s /\
    heap w' = heap w /\
    files w' = <[name := s]> (files w) /\
    log w' = log w ++ [ EvPrint "identifying opportunities"; EvLLM p (Some s);
                        EvOpen name; EvWrite name s ].
Proof.
  unfold identify_top_opportunities. intros H.
  apply bind_Ok in H as (items & w0 & [Hit ->]%load_list_Ok & H).
  apply bind_Ok in H as (lines & w1 & Hlines & H).
  apply (map_M_same_world _ _ action_line_same_world) in Hlines as ->.
  run_inv. simpl in *. eexists. split; [done|]. split; [done|].
  split.
  - apply write_after_open.
  - by rewrite <- !(assoc_L (++)).
Qed.

Lemma dict_to_list_cells d :
  dom d ⊆ list_to_set fieldnames ->
  exists cs, dict_to_list d = Ok cs /\ map csv_cell cs = cells d.
Proof.
  intros Hd. unfold dict_to_list. rewrite bool_decide_eq_true_2 by done.
  eexists. split; [done|]. unfold cells. by rewrite map_map.
Qed.

Lemma writerows_run name items : forall ds w acc,
  Forall2 (fun r d => heap w !! r = Some (ODict d)) items ds ->
  Forall (fun d => dom d ⊆ list_to_set fieldnames) ds ->
  files w !! name = Some acc ->
  for_each items (writerow_dict name) w =
  (Ok tt,
   mkWorld (heap w)
     (<[name := acc +:+ String.concat EmptyString
                          (map (fun d => csv_writerow (cells d)) ds)]> (files w))
     (log w ++ map (fun d => EvWrite name (csv_writerow (cells d))) ds)).
Proof.
  induction items as [|r items IH]; intros ds w acc HF Hk Hacc.
  - apply Forall2_nil_inv_l in HF as ->. simpl.
    rewrite str_app_nil_r, app_nil_r, insert_id by done. by destruct w.
  - apply Forall2_cons_inv_l in HF as (d & ds' & Hd & HF & ->).
    apply Forall_cons in Hk as [Hkd Hk].
    destruct (dict_to_list_cells d Hkd) as (cs & Hcs & Hcells).
    cbn [for_each]. unfold writerow_dict at 1.
    erewrite bind_run.
    2:{ erewrite bind_run by (by apply load_dict_Ok).
        erewrite bind_run by (by apply lift_Ok). done. }
    rewrite Hcells.
    cbn [map]. rewrite str_concat_empty_cons, <- str_app_assoc.
    erewrite IH; [| exact HF | exact Hk | simpl; apply lookup_insert_eq ].
    rewrite Hacc. simpl. f_equal. f_equal.
    + by rewrite insert_insert_eq.
    + by rewrite <- (assoc_L (++)).
Qed.

(** The persistence stage on well-formed records: what it returns and the
    world it leaves. *)
Lemma save_to_csv_run l items ds w :
  heap w !! l = Some (OList items) ->
  Forall2 (fun r d => heap w !! r = Some (ODict d)) items ds ->
  Forall (fun d => dom d ⊆ list_to_set fieldnames) ds ->
  let name := results_name (datetime_now (log w)) in
  save_to_csv l w =
  (Ok ("Data saved to " +:+ name),
   mkWorld (heap w) (<[name := csv_text ds]> (files w))
     (log w ++ EvOpen name :: EvWrite name (csv_writerow fieldnames)
            :: map (fun d => EvWrite name (csv_writerow (cells d))) ds)).
Proof.
  intros Hl HF Hk name. unfold save_to_csv.
  erewrite bind_run by done.
  erewrite bind_run by done.
  erewrite bind_run by done.
  erewrite bind_run by (by apply load_list_Ok).
  erewrite bind_run.
  2:{ eapply (writerows_run _ _ ds); [exact HF | exact Hk |].
      simpl. rewrite lookup_insert_eq. done. }
  unfold ret. f_equal. simpl. f_equal.
  - rewrite lookup_insert_eq. simpl. rewrite !insert_insert_eq. done.
  - by rewrite <- !(assoc_L (++)).
Qed.

(** ** The whole run, when it succeeds *)

Lemma lookup_map {X Y} (f : X -> Y) (l : list X) i :
  map f l !! i = f <$> (l !! i).
Proof.
  revert i. induction l as [|x l IH]; intros [|i]; simpl; by try done.
Qed.

Lemma action_from_mono a evs pre post :
  action_from a evs -> action_from a (pre ++ evs ++ post).
Proof.
  intros (p & resp & Hp & Hin & ->). exists p, resp.
  split; [done|]. split; [|done].
  apply elem_of_app. right. apply elem_of_app. by left.
Qed.

Lemma enriched_category v d evs :
  enriched v d evs ->
  exists name raw amount desc cat p,
    v !! "Vendor" = Some name /\
    v !! "Amount" = Some (Some raw) /\
    parse_amount raw = Ok amount /\
    classification_prompt p /\ EvLLM p (Some cat) ∈ evs /\
    d = {[ "Vendor" := scalar_of name; "Amount" := SFloat amount;
           "Description" := SStr desc; "Category" := SStr cat ]}.
Proof.
  intros (name & raw & amount & p1 & q & sr & p3 & desc & p4 & cat &
          Hn & Hr & Ha & Hp & -> & ->).
  exists name, raw, amount, desc, cat, p4. repeat split; try done.
  do 3 apply list_elem_of_further. apply list_elem_of_here.
Qed.

(** The records after enrichment, against the ledger and the whole log of
    the stage. *)
Lemma enriched_all vendors : forall recs evss pre post,
  Forall2 (fun v '(d, evs) => enriched v d evs) vendors (zip recs evss) ->
  length recs = length vendors -> length evss = length vendors ->
  Forall2 (fun v d =>
    exists name raw amount desc cat p,
      v !! "Vendor" = Some name /\
      v !! "Amount" = Some (Some raw) /\
      parse_amount raw = Ok amount /\
      classification_prompt p /\
      EvLLM p (Some cat) ∈ pre ++ concat evss ++ post /\
      d = {[ "Vendor" := scalar_of name; "Amount" := SFloat amount;
             "Description" := SStr desc; "Category" := SStr cat ]})
    vendors recs.
Proof.
  induction vendors as [|v vendors IH]; intros recs evss pre post HF Hn1 Hn2.
  - destruct recs; [constructor | done].
  - destruct recs as [|d recs]; [done|]. destruct evss as [|evs evss]; [done|].
    simpl in HF. apply Forall2_cons in HF as [Hv HF].
    constructor.
    + apply enriched_category in Hv
        as (name & raw & amount & desc & cat & p & ? & ? & ? & ? & Hin & ->).
      exists name, raw, amount, desc, cat, p. repeat split; try done.
      simpl. apply elem_of_app. right. apply elem_of_app. left.
      apply elem_of_app. by left.
    + simpl in Hn1, Hn2.
      specialize (IH recs evss (pre ++ evs) post HF ltac:(lia) ltac:(lia)).
      eapply Forall2_impl; [exact IH|]. simpl.
      intros v' d' (name & raw & amount & desc & cat & p & ? & ? & ? & ? & Hin & ->).
      exists name, raw, amount, desc, cat, p. repeat split; try done.
      by rewrite <- !(assoc_L (++)) in Hin |- *.
Qed.

(** The records after recommendation, built from those before it. *)
Lemma actions_all (h1 h2 : list object) evs items recs0 :
  Forall2 (fun r d => h1 !! r = Some (ODict d)) items recs0 ->
  (forall r, r ∈ items ->
     exists d a, h1 !! r = Some (ODict d) /\
                 h2 !! r = Some (ODict (<["Action" := SStr a]> d)) /\
                 action_from a evs) ->
  exists recs,
    Forall2 (fun r d => h2 !! r = Some (ODict d)) items recs /\
    Forall2 (fun d0 d => exists a, d = <["Action" := SStr a]> d0 /\
                                   action_from a evs) recs0 recs.
Proof.
  induction 1 as [|r d0 items recs0 Hr HF IH]; intros Hall.
  - exists []. split; constructor.
  - destruct IH as (recs & H2 & Ha).
    { intros r' Hr'. apply Hall. by apply list_elem_of_further. }
    destruct (Hall r) as (d & a & Hd & Hd' & Hfrom); [apply list_elem_of_here|].
    assert (d = d0) as -> by congruence.
    exists (<["Action" := SStr a]> d0 :: recs). split; constructor; eauto.
Qed.

Lemma records_in_heap (h0 : list object) l recs n :
  l = length h0 -> n = length recs ->
  Forall2 (fun r d => (h0 ++ OList (seq (S l) n) :: map ODict recs) !! r
                      = Some (ODict d))
          (seq (S l) n) recs.
Proof.
  intros -> ->. apply Forall2_same_length_lookup_2; [by rewrite length_seq|].
  intros i r d Hr Hd. apply lookup_seq in Hr as [-> _].
  rewrite lookup_app_r by lia.
  replace (S (length h0) + i - length h0) with (S i) by lia.
  simpl. by rewrite lookup_map, Hd.
Qed.

Lemma csv_reader_csv_text ds :
  csv_reader (csv_text ds) = fieldnames :: map cells ds.
Proof.
  transitivity (csv_reader (String.concat EmptyString
                  (map csv_writerow (fieldnames :: map cells ds))));
    [|apply csv_reader_writerows].
  f_equal. unfold csv_text. cbn [map].
  by rewrite str_concat_empty_cons, map_map.
Qed.

Lemma actioned_keys v d evs :
  actioned v d evs -> dom d ⊆ list_to_set fieldnames.
Proof.
  intros (name & raw & amount & desc & cat & action & p & _ & _ & _ & _ & _ & _ & ->).
  rewrite !dom_insert_L, dom_singleton_L. unfold fieldnames. set_solver.
Qed.

Lemma full_pipeline_Ok x w x' w' :
  full_pipeline x w = (Ok x', w') ->
  exists path content l items recs opps evs t_opp t_csv,
    x !! "input_file" = Some (VStr path) /\
    files w !! path = Some content /\
    log w' = log w ++ evs /\
    x' = <["top_opportunities" := VStr opps]>
           (<["processed_data_with_actions" := VRef l]>
              (<["processed_data" := VRef l]> x)) /\
    heap w' !! l = Some (OList items) /\
    Forall2 (fun r d => heap w' !! r = Some (ODict d)) items recs /\
    Forall2 (fun v d => actioned v d evs) (csv_DictReader content) recs /\
    (exists p, EvLLM p (Some opps) ∈ evs) /\
    files w' = <[results_name t_csv := csv_text recs]>
                 (<[opportunities_name t_opp := opps]> (files w)).
Proof.
  unfold full_pipeline. intros H.
  apply bind_Ok in H as (x1 & w1 & H1 & H).
  apply bind_Ok in H as (x2 & w2 & H2 & H).
  apply bind_Ok in H as (x3 & w3 & H3 & H4).
  (* enrichment *)
  unfold process_vendors_tool, assign in H1.
  apply bind_Ok in H1 as (v1 & ? & H1 & [<- <-]%ret_Ok).
  apply bind_Ok in H1 as (vin & ? & [Hin ->]%getitem_Ok & H1).
  apply bind_Ok in H1 as (path & ? & [-> ->]%expect_str_Ok & H1).
  apply bind_Ok in H1 as (l & ? & H1 & [<- <-]%ret_Ok).
  apply analyze_vendors_Ok in H1
    as (content & recs0 & evss & Hc & -> & HF0 & Hn1 & Hn2 & Hh1 & Hf1 & Hl1).
  set (l := length (heap w)) in *.
  (* recommendation *)
  unfold add_actions_tool, assign in H2.
  apply bind_Ok in H2 as (v2 & ? & H2 & [<- <-]%ret_Ok).
  apply bind_Ok in H2 as (vl & ? & [Hvl ->]%getitem_Ok & H2).
  rewrite lookup_insert_eq in Hvl. injection Hvl as <-.
  apply bind_Ok in H2 as (? & ? & [[= <-] ->]%expect_ref_Ok & H2).
  apply bind_Ok in H2 as (l2 & ? & H2 & [<- <-]%ret_Ok).
  apply recommend_actions_Ok in H2
    as (items & evs2 & -> & Hit & Hl2 & Hf2 & Hlen2 & Hout & Hitems).
  assert (items = seq (S l) (length recs0)) as ->.
  { rewrite Hh1 in Hit. rewrite (list_lookup_middle _ _ _ l eq_refl) in Hit.
    by injection Hit. }
  pose proof (records_in_heap (heap w) l recs0 _ eq_refl eq_refl) as HR0.
  rewrite <- Hh1 in HR0.
  destruct (actions_all _ _ _ _ _ HR0 Hitems) as (recs & HR & HA).
  (* opportunities *)
  unfold identify_opportunities_tool, assign in H3.
  apply bind_Ok in H3 as (v3 & ? & H3 & [<- <-]%ret_Ok).
  apply bind_Ok in H3 as (vl & ? & [Hvl ->]%getitem_Ok & H3).
  rewrite lookup_insert_eq in Hvl. injection Hvl as <-.
  apply bind_Ok in H3 as (? & ? & [[= <-] ->]%expect_ref_Ok & H3).
  apply bind_Ok in H3 as (opps & ? & H3 & [<- <-]%ret_Ok).
  apply identify_top_opportunities_Ok in H3 as (p & Hp & Hh3 & Hf3 & Hl3).
  simpl in Hp, Hf3, Hl3.
  assert (Hl' : heap w3 !! l = Some (OList (seq (S l) (length recs0)))).
  { rewrite Hh3, Hout, Hit; [done|]. intros Hel%elem_of_seq. lia. }
  rewrite <- Hh3 in HR.
  (* persistence *)
  unfold save_results_tool in H4.
  apply bind_Ok in H4 as (vl & ? & [Hvl ->]%getitem_Ok & H4).
  rewrite !lookup_insert_ne, lookup_insert_eq in Hvl by done.
  injection Hvl as <-.
  apply bind_Ok in H4 as (? & ? & [[= <-] ->]%expect_ref_Ok & H4).
  apply bind_Ok in H4 as (msg & w4 & H4 & [<- ->]%ret_Ok).
  assert (Hkeys : Forall (fun d => dom d ⊆ list_to_set fieldnames) recs).
  { apply Forall_forall. intros d Hd.
    apply list_elem_of_lookup_1 in Hd as (i & Hi).
    destruct (Forall2_lookup_r _ _ _ _ _ HA Hi) as (d0 & Hi0 & a & -> & _).
    apply list_elem_of_lookup_2 in Hi0.
    pose proof (enriched_all _ _ _ [] [] HF0 Hn1 Hn2) as HE.
    apply list_elem_of_lookup_1 in Hi0 as (k & Hk).
    destruct (Forall2_lookup_r _ _ _ _ _ HE Hk)
      as (v & _ & name & raw & amount & desc & cat & p4 & _ & _ & _ & _ & _ & ->).
    rewrite !dom_insert_L, dom_singleton_L. unfold fieldnames. set_solver. }
  rewrite (save_to_csv_run _ _ _ _ Hl' HR Hkeys) in H4.
  injection H4 as <- <-. simpl.
  set (name_o := opportunities_name _) in *.
  set (name_c := results_name _) in *.
  set (evs3 := [EvPrint "identifying opportunities"; EvLLM p (Some opps);
                EvOpen name_o; EvWrite name_o opps]) in *.
  set (evs4 := EvOpen name_c :: EvWrite name_c (csv_writerow fieldnames)
               :: map (fun d => EvWrite name_c (csv_writerow (cells d))) recs).
  exists path, content, l, (seq (S l) (length recs0)), recs, opps,
    (concat evss ++ evs2 ++ evs3 ++ evs4),
    (datetime_now ((log w2 ++ [EvPrint "identifying opportunities"]) ++
                   [EvLLM p (Some opps)])),
    (datetime_now (log w3)).
  split; [done|]. split; [done|]. split.
  { rewrite Hl3, Hl2, Hl1. by rewrite <- !(assoc_L (++)). }
  split; [done|]. split; [done|]. split; [done|]. split.
  { pose proof (enriched_all _ _ _ [] (evs2 ++ evs3 ++ evs4) HF0 Hn1 Hn2) as HE.
    eapply Forall2_trans; [|exact HE|exact HA]. simpl.
    intros v d0 d (name & raw & amount & desc & cat & p4 & ? & ? & ? & ? & ? & ->)
                  (a & -> & Hfrom).
    exists name, raw, amount, desc, cat, a, p4. repeat split; try done.
    by apply action_from_mono. }
  split.
  { exists p. apply elem_of_app. right. apply elem_of_app. right.
    apply elem_of_app. left. apply list_elem_of_further, list_elem_of_here. }
  rewrite Hf3, Hf2, Hf1. done.
Qed.

(** ** The order of the ledger *)

Lemma results_not_opportunities t1 t2 : results_name t1 <> opportunities_name t2.
Proof. unfold results_name, opportunities_name. intros H. discriminate H. Qed.

Lemma actioned_cells v d evs :
  actioned v d evs ->
  exists name raw amount desc cat action,
    v !! "Vendor" = Some name /\
    v !! "Amount" = Some (Some raw) /\
    parse_amount raw = Ok amount /\
    d !! "Vendor" = Some (scalar_of name) /\
    d !! "Amount" = Some (SFloat amount) /\
    d !! "Description" = Some (SStr desc) /\
    d !! "Category" = Some (SStr cat) /\
    d !! "Action" = Some (SStr action) /\
    (exists p, classification_prompt p /\ EvLLM p (Some cat) ∈ evs) /\
    action_from action evs /\
    cells d = [csv_cell (scalar_of name); float_repr amount; desc; cat; action].
Proof.
  intros (name & raw & amount & desc & cat & action & p & ? & ? & ? & ? & ? & ? & ->).
  exists name, raw, amount, desc, cat, action.
  repeat split; try done; eauto.
Qed.

(** C1: in a run of the pipeline that completes, the records of the list
    that every stage works on, and the data rows of the results file as
    the csv reader reads them back, are the rows of the input ledger, one
    for one and in the same order: row [i] of the file starts with the
    vendor of row [i] of the ledger.  The ledger may have any number of
    rows, none and one included. *)
Theorem output_rows_follow_ledger_order x w x' w' :
  full_pipeline x w = (Ok x', w') ->
  exists path content l items recs t text rows,
    x !! "input_file" = Some (VStr path) /\
    files w !! path = Some content /\
    x' !! "processed_data" = Some (VRef l) /\
    x' !! "processed_data_with_actions" = Some (VRef l) /\
    heap w' !! l = Some (OList items) /\
    Forall2 (fun r d => heap w' !! r = Some (ODict d)) items recs /\
    Forall2 (fun v d => d !! "Vendor" = scalar_of <$> v !! "Vendor")
            (csv_DictReader content) recs /\
    files w' !! results_name t = Some text /\
    csv_reader text = fieldnames :: rows /\
    length rows = length (csv_DictReader content) /\
    Forall2 (fun v r => r !! 0 = (csv_cell ∘ scalar_of) <$> v !! "Vendor")
            (csv_DictReader content) rows.
Proof.
  intros H.
  apply full_pipeline_Ok in H
    as (path & content & l & items & recs & opps & evs & t_opp & t_csv &
        Hin & Hc & Hl & -> & Hit & HR & HA & _ & Hf).
  exists path, content, l, items, recs, t_csv, (csv_text recs), (map cells recs).
  split; [done|]. split; [done|].
  split; [by rewrite !lookup_insert_ne, lookup_insert_eq by done|].
  split; [by rewrite lookup_insert_ne, lookup_insert_eq by done|].
  split; [done|]. split; [done|]. split.
  { eapply Forall2_impl; [exact HA|]. simpl. intros v d Hvd.
    apply actioned_cells in Hvd
      as (name & raw & amount & desc & cat & action & -> & _ & _ & -> & _).
    done. }
  split; [by rewrite Hf, lookup_insert_eq|].
  split; [apply csv_reader_csv_text|].
  split; [rewrite length_map; symmetry; by eapply Forall2_length|].
  clear -HA. induction HA as [|v d vs ds Hvd HA IH]; simpl; constructor; [|done].
  apply actioned_cells in Hvd
    as (name & raw & amount & desc & cat & action & -> & _ & _ & _ & _ & _ & _ & _
        & _ & _ & ->).
  done.
Qed.

(** ** Amount parsing *)

(** C2: parsing an amount gives what parsing it with every [$] and [,]
    taken out gives: the parse is [float] of the stripped string, the same
    number or the same failure; so ["$1,250.00"] parses as ["1250.00"]. *)
Theorem amount_parsing_ignores_separators :
  (forall s, parse_amount s = parse_amount (strip_separators s)) /\
  (forall s x, parse_amount s = Ok x <-> float_of_str (strip_separators s) = Some x) /\
  strip_separators "$1,250.00" = "1250.00" /\
  parse_amount "$1,250.00" = parse_amount "1250.00".
Proof.
  assert (H1 : forall s, parse_amount s = parse_amount (strip_separators s)).
  { intros s. by rewrite !parse_amount_strip, strip_separators_idem. }
  split; [done|]. split; [|split; [done|]].
  - intros s x. rewrite parse_amount_strip.
    destruct (float_of_str (strip_separators s)); split; congruence.
  - by rewrite (H1 "$1,250.00").
Qed.

(** ** Categories and actions are taken as the model gives them *)

(** C4, as the code has it: in a run that completes, the category of every
    data row of the results file is, verbatim, an answer of the model to a
    classification prompt; so the categories written belong to the
    department set whenever the classification answers of the run do. *)
Theorem written_category_is_model_answer x w x' w' :
  full_pipeline x w = (Ok x', w') ->
  exists evs t text rows,
    log w' = log w ++ evs /\
    files w' !! results_name t = Some text /\
    csv_reader text = fieldnames :: rows /\
    Forall (fun r => exists p cat, classification_prompt p /\
                       EvLLM p (Some cat) ∈ evs /\ r !! 3 = Some cat) rows /\
    ((forall p cat, classification_prompt p -> EvLLM p (Some cat) ∈ evs ->
                    cat ∈ departments) ->
     Forall (fun r => exists cat, r !! 3 = Some cat /\ cat ∈ departments) rows).
Proof.
  intros H.
  apply full_pipeline_Ok in H
    as (path & content & l & items & recs & opps & evs & t_opp & t_csv &
        Hin & Hc & Hl & -> & Hit & HR & HA & _ & Hf).
  exists evs, t_csv, (csv_text recs), (map cells recs).
  split; [done|]. split; [by rewrite Hf, lookup_insert_eq|].
  split; [apply csv_reader_csv_text|].
  assert (HC : Forall (fun r => exists p cat, classification_prompt p /\
                       EvLLM p (Some cat) ∈ evs /\ r !! 3 = Some cat)
                      (map cells recs)).
  { clear -HA. induction HA as [|v d vs ds Hvd HA IH]; simpl; constructor; [|done].
    apply actioned_cells in Hvd
      as (name & raw & amount & desc & cat & action & _ & _ & _ & _ & _ & _ & _ & _
          & (p & Hp & Hev) & _ & ->).
    by exists p, cat. }
  split; [done|]. intros Hdep.
  eapply Forall_impl; [exact HC|]. simpl.
  intros r (p & cat & Hp & Hev & Hr). exists cat. split; [done|]. by eapply Hdep.
Qed.

(** ** The results file *)

(** C6: on a list of records that have exactly the five fields, the
    persistence stage returns, and the file it leaves, named
    results_<YYYYMMDD_HHMMSS>.csv after the clock, reads back as the header
    row Vendor, Amount, Description, Category, Action followed by one row
    per record, in order, each made of the five values of its record. *)
Theorem results_file_is_header_and_one_row_per_record l items ds w :
  heap w !! l = Some (OList items) ->
  Forall2 (fun r d => heap w !! r = Some (ODict d)) items ds ->
  Forall (fun d => dom d = list_to_set fieldnames) ds ->
  let name := results_name (datetime_now (log w)) in
  exists w' rows,
    save_to_csv l w = (Ok ("Data saved to " +:+ name), w') /\
    files w' !! name = Some (csv_text ds) /\
    csv_reader (csv_text ds) =
      ["Vendor"; "Amount"; "Description"; "Category"; "Action"] :: rows /\
    length rows = length ds /\
    Forall2 (fun d r =>
      exists vendor amount description category action,
        d !! "Vendor" = Some vendor /\ d !! "Amount" = Some amount /\
        d !! "Description" = Some description /\
        d !! "Category" = Some category /\ d !! "Action" = Some action /\
        r = [csv_cell vendor; csv_cell amount; csv_cell description;
             csv_cell category; csv_cell action]) ds rows.
Proof.
  intros Hl HF Hk name.
  assert (Hk' : Forall (fun d => dom d ⊆ list_to_set fieldnames) ds).
  { eapply Forall_impl; [exact Hk|]. simpl. by intros d ->. }
  eexists _, (map cells ds). split; [by apply (save_to_csv_run l items ds)|].
  split; [simpl; apply lookup_insert_eq|].
  split; [apply csv_reader_csv_text|].
  split; [by rewrite length_map|].
  clear -Hk. induction Hk as [|d ds Hd Hk IH]; simpl; constructor; [|done].
  assert (Hkey : forall k, k ∈ fieldnames -> is_Some (d !! k)).
  { intros k Hin. apply elem_of_dom. rewrite Hd. by apply elem_of_list_to_set. }
  destruct (Hkey "Vendor") as [v1 H1]; [apply list_elem_of_In; simpl; tauto|].
  destruct (Hkey "Amount") as [v2 H2]; [apply list_elem_of_In; simpl; tauto|].
  destruct (Hkey "Description") as [v3 H3]; [apply list_elem_of_In; simpl; tauto|].
  destruct (Hkey "Category") as [v4 H4]; [apply list_elem_of_In; simpl; tauto|].
  destruct (Hkey "Action") as [v5 H5]; [apply list_elem_of_In; simpl; tauto|].
  exists v1, v2, v3, v4, v5. repeat split; try done.
  unfold cells, fieldnames. simpl. by rewrite H1, H2, H3, H4, H5.
Qed.

(** ** The opportunities file *)

(** C7, as the code has it: when the opportunity stage returns, the text
    it returns and the text of the file opportunities_<...>.txt it leaves
    are both the answer of the model as it came; so the file has at most
    3 data rows of 3 fields each whenever the answer of the model has. *)
Theorem opportunities_file_is_model_answer l w s w' :
  identify_top_opportunities l w = (Ok s, w') ->
  exists p t,
    EvLLM p (Some s) ∈ drop (length (log w)) (log w') /\
    files w' !! opportunities_name t = Some s /\
    (opportunity_shape s ->
     forall text, files w' !! opportunities_name t = Some text ->
                  opportunity_shape text).
Proof.
  intros H. apply identify_top_opportunities_Ok in H as (p & Hp & Hh & Hf & Hl).
  simpl in Hf, Hl. eexists p, _. split.
  { rewrite Hl, drop_app_length. apply list_elem_of_further, list_elem_of_here. }
  split; [by rewrite Hf, lookup_insert_eq|].
  intros Hs text Ht. rewrite Hf, lookup_insert_eq in Ht. by injection Ht as <-.
Qed.

(** ** Enrichment does not remember *)

Lemma state_blind_bind {A C} (m : M A) (k : A -> M C) :
  state_blind m -> (forall a, state_blind (k a)) -> state_blind (bind m k).
Proof.
  intros Hm Hk w1 w2. unfold bind. specialize (Hm w1 w2).
  destruct (m w1) as [[a1|e1] v1], (m w2) as [[a2|e2] v2]; simpl in Hm;
    try discriminate; injection Hm as <-; [apply Hk | done].
Qed.

Lemma state_blind_ret {A} (a : A) : state_blind (ret a).
Proof. by intros w1 w2. Qed.

Lemma state_blind_lift {A} (r : Result A) : state_blind (lift r).
Proof. intros w1 w2. by destruct r. Qed.

Lemma state_blind_getitem {V} (d : gmap string V) k : state_blind (getitem d k).
Proof. intros w1 w2. unfold getitem. by destruct (d !! k). Qed.

Lemma state_blind_call_llm p : deterministic -> state_blind (call_llm p).
Proof.
  intros [Hd _] w1 w2. unfold call_llm. rewrite (Hd (log w1) (log w2)).
  by destruct (llm_invoke (log w2) p).
Qed.

Lemma state_blind_call_search q : deterministic -> state_blind (call_search q).
Proof.
  intros [_ Hd] w1 w2. unfold call_search. rewrite (Hd (log w1) (log w2)).
  by destruct (search_run (log w2) q).
Qed.

Lemma state_blind_analyze_pipeline x :
  deterministic -> state_blind (analyze_pipeline x).
Proof.
  intros Hd.
  unfold analyze_pipeline, assign, query_chain, search_step, summary_chain,
    classification_chain, chain.
  repeat first
    [ apply state_blind_ret | apply state_blind_lift | apply state_blind_getitem
    | by apply state_blind_call_llm | by apply state_blind_call_search
    | apply state_blind_bind; [|intros ?] ].
Qed.

(** What one pass of the loop of [analyze_vendors] stores, in terms of the
    result of the chain. *)
Lemma analyze_vendors_body_record l v w w' :
  analyze_vendors_body l v w = (Ok tt, w') ->
  exists name result items d,
    v !! "Vendor" = Some name /\
    (analyze_pipeline {[ "vendor_name" := scalar_of name ]} w).1 = Ok result /\
    heap w !! l = Some (OList items) /\
    heap w' = <[l := OList (items ++ [length (heap w)])]> (heap w ++ [ODict d]) /\
    d !! "Description" = result !! "service_description" /\
    d !! "Category" = result !! "category" /\
    is_Some (d !! "Description") /\ is_Some (d !! "Category").
Proof.
  intros H.
  destruct (analyze_vendors_body_Ok _ _ _ _ H)
    as (items & d & evs & Hit & _ & Hh & _ & _).
  revert H. unfold analyze_vendors_body.
  intros (name & ? & [Hn ->]%getitem_Ok & H)%bind_Ok.
  apply bind_Ok in H as (result & wm & Hres & H).
  pose proof (preserves_analyze_pipeline same_heap _ _ _ _ Hres) as Hhm.
  unfold same_heap in Hhm.
  apply bind_Ok in H as (name' & ? & [Hn' ->]%getitem_Ok & H).
  apply bind_Ok in H as (raw & ? & [Hraw ->]%getitem_Ok & H).
  apply bind_Ok in H as (amount & ? & [Ham ->]%lift_Ok & H).
  apply bind_Ok in H as (desc & ? & [Hdesc ->]%getitem_Ok & H).
  apply bind_Ok in H as (cat & ? & [Hcat ->]%getitem_Ok & H).
  apply bind_Ok in H as (r & wa & Hal & H).
  injection Hal as <- <-.
  unfold append in H.
  apply bind_Ok in H as ([] & wb & H & Hpr).
  injection Hpr as <-.
  apply bind_Ok in H as (items' & ? & [Hit' ->]%load_list_Ok & H).
  injection H as <-. simpl in Hh. rewrite Hhm in Hh.
  assert (Hlt : l < length (heap w)) by (by eapply lookup_lt_Some).
  assert (Heq : ODict {[ "Vendor" := scalar_of name';
                         "Amount" := SFloat amount;
                         "Description" := desc;
                         "Category" := cat ]} = ODict d).
  { apply (f_equal (fun h => h !! length (heap w))) in Hh.
    rewrite !list_lookup_insert_ne in Hh by lia.
    rewrite !(list_lookup_middle _ _ _ _ eq_refl) in Hh.
    congruence. }
  injection Heq as <-.
  eexists name, result, items, _. rewrite Hres. simpl.
  split; [done|]. split; [done|]. split; [done|]. split; [by rewrite Hhm|].
  rewrite Hdesc, Hcat. by simplify_map_eq.
Qed.

(** C9: with stubbed collaborators that answer the same request the same
    way, whatever the chain of the enrichment stage returns does not
    depend on the state it starts in; and enriching the same vendor twice
    in a row appends two records with the same description and the same
    category. *)
Theorem enrichment_twice_gives_same_record l v w w1 w2 :
  deterministic ->
  analyze_vendors_body l v w = (Ok tt, w1) ->
  analyze_vendors_body l v w1 = (Ok tt, w2) ->
  (forall x wa wb, (analyze_pipeline x wa).1 = (analyze_pipeline x wb).1) /\
  exists items r1 r2 d1 d2,
    heap w !! l = Some (OList items) /\
    heap w2 !! l = Some (OList (items ++ [r1; r2])) /\
    r1 <> r2 /\
    heap w2 !! r1 = Some (ODict d1) /\
    heap w2 !! r2 = Some (ODict d2) /\
    is_Some (d1 !! "Description") /\ is_Some (d1 !! "Category") /\
    d1 !! "Description" = d2 !! "Description" /\
    d1 !! "Category" = d2 !! "Category".
Proof.
  intros Hd H1 H2. split; [intros x; by apply state_blind_analyze_pipeline|].
  apply analyze_vendors_body_record in H1
    as (name1 & res1 & items & d1 & Hn1 & Hr1 & Hit1 & Hh1 & Hd1 & Hc1 & Hs1 & Hs1').
  apply analyze_vendors_body_record in H2
    as (name2 & res2 & items2 & d2 & Hn2 & Hr2 & Hit2 & Hh2 & Hd2 & Hc2 & _ & _).
  assert (name2 = name1) as -> by congruence.
  assert (res2 = res1) as ->.
  { rewrite (state_blind_analyze_pipeline _ Hd w1 w) in Hr2. congruence. }
  assert (Hlt : l < length (heap w)) by (by eapply lookup_lt_Some).
  assert (Hlen1 : length (heap w1) = S (length (heap w))).
  { rewrite Hh1, length_insert, length_app. simpl. lia. }
  assert (items2 = items ++ [length (heap w)]) as ->.
  { rewrite Hh1, list_lookup_insert_eq in Hit2
      by (rewrite length_app; simpl; lia).
    by injection Hit2. }
  exists items, (length (heap w)), (S (length (heap w))), d1, d2.
  split; [done|]. split.
  { rewrite Hh2, list_lookup_insert_eq, Hlen1, <- (assoc_L (++))
      by (rewrite length_app; simpl; lia). done. }
  split; [lia|]. split.
  { rewrite Hh2, list_lookup_insert_ne by lia.
    rewrite lookup_app_l by lia.
    rewrite Hh1, list_lookup_insert_ne by lia.
    by rewrite list_lookup_middle. }
  split.
  { rewrite Hh2, list_lookup_insert_ne by lia.
    by rewrite list_lookup_middle. }
  split; [done|]. split; [done|]. split; congruence.
Qed.

(** ** One list, two outputs *)

(** C10: in a run that completes, [processed_data] and
    [processed_data_with_actions] are bound to the same list object, whose
    records are the ones the persistence step writes; every data row of
    the results file has in its Action column the action stored in its
    record, an answer of the model trimmed and lowercased; and the string
    bound to [top_opportunities] is the content of the opportunities
    file. *)
Theorem persisted_rows_have_actions_and_opportunities_match x w x' w' :
  full_pipeline x w = (Ok x', w') ->
  exists l items recs evs opps t_opp t_csv rows,
    log w' = log w ++ evs /\
    x' !! "processed_data" = Some (VRef l) /\
    x' !! "processed_data_with_actions" = Some (VRef l) /\
    heap w' !! l = Some (OList items) /\
    Forall2 (fun r d => heap w' !! r = Some (ODict d)) items recs /\
    files w' !! results_name t_csv = Some (csv_text recs) /\
    csv_reader (csv_text recs) = fieldnames :: rows /\
    Forall2 (fun d r => exists a, d !! "Action" = Some (SStr a) /\
                                  action_from a evs /\ r !! 4 = Some a)
            recs rows /\
    x' !! "top_opportunities" = Some (VStr opps) /\
    files w' !! opportunities_name t_opp = Some opps.
Proof.
  intros H.
  apply full_pipeline_Ok in H
    as (path & content & l & items & recs & opps & evs & t_opp & t_csv &
        Hin & Hc & Hl & -> & Hit & HR & HA & _ & Hf).
  exists l, items, recs, evs, opps, t_opp, t_csv, (map cells recs).
  split; [done|].
  split; [by rewrite !lookup_insert_ne, lookup_insert_eq by done|].
  split; [by rewrite lookup_insert_ne, lookup_insert_eq by done|].
  split; [done|]. split; [done|].
  split; [by rewrite Hf, lookup_insert_eq|].
  split; [apply csv_reader_csv_text|].
  split.
  { clear -HA. induction HA as [|v d vs ds Hvd HA IH]; simpl; constructor; [|done].
    apply actioned_cells in Hvd
      as (name & raw & amount & desc & cat & action & _ & _ & _ & _ & _ & _ & _
          & Hact & _ & Hfrom & ->).
    by exists action. }
  split; [by rewrite lookup_insert_eq|].
  rewrite Hf, lookup_insert_ne by apply results_not_opportunities.
  by rewrite lookup_insert_eq.
Qed.

End Proofs.

(** * The pipeline on concrete ledgers *)

Import Doubles.

(** The end-to-end scenario: two vendors, fixed answers. *)
Example two_vendor_run :
  let run := results (B:=builtins) (Sv:=good) (world0 builtins ledger2) in
  csv_reader (default EmptyString
                (files run.2 !! "results_20240517_120000.csv")) =
    [ ["Vendor"; "Amount"; "Description"; "Category"; "Action"];
      ["AWS"; "1200.0"; "Cloud computing services."; "Engineering"; "optimize"];
      ["Zoom"; "500.0"; "Cloud computing services."; "Engineering"; "optimize"] ] /\
  files run.2 !! "opportunities_2024-05-17_12-00-00.txt" = Some three_opportunities.
Proof. vm_compute. done. Qed.

(** A header-only ledger gives a header-only results file. *)
Example empty_ledger_run :
  let run := results (B:=builtins) (Sv:=good)
               (world0 builtins ("Vendor,Amount" +:+ CRLF)) in
  files run.2 !! "results_20240517_120000.csv" =
    Some ("Vendor,Amount,Description,Category,Action" +:+ CRLF).
Proof. vm_compute. done. Qed.

(** The amount of the specification, with decimals in place of floats. *)
Example amount_1250 :
  parse_amount (B:=builtins) "$1,250.00" = Ok (mkDec 1250 EmptyString) /\
  float_repr (Builtins:=builtins) (mkDec 1250 EmptyString) = "1250.0".
Proof. vm_compute. done. Qed.

(** The failure scenario: the search fails on vendor 2 of 3.  Nothing is
    said to or about the third vendor, and only the ledger exists. *)
Example search_fails_on_second_of_three :
  let run := results (B:=builtins) (Sv:=flaky) (world0 builtins ledger3) in
  run.1 = Raise (ExternalCallError "search"
            "Generate a search query to find what services Zoom provides.") /\
  files run.2 = {[ "vendors.csv" := ledger3 ]} /\
  length (log run.2) = 7 /\
  List.filter (fun e => match e with EvPrint _ => true | _ => false end) (log run.2) =
    [EvPrint "classifiying vendor: AWS - Engineering - Cloud computing services."].
Proof. repeat split; vm_compute; reflexivity. Qed.

(** * Witnesses and counterexamples *)

Lemma existsb_Exists {A} (f : A -> bool) (l : list A) :
  existsb f l = true -> Exists (fun c => f c = true) l.
Proof.
  induction l as [|a l IH]; simpl; [discriminate|].
  destruct (f a) eqn:Ha; [by left | right; by apply IH].
Qed.

Section GoodRun.
#[local] Existing Instance builtins.
#[local] Existing Instance good.

Lemma good_run_ok :
  is_ok (full_pipeline input (world0 builtins ledger2)).1 = true.
Proof. vm_compute. reflexivity. Qed.

Lemma output_rows_follow_ledger_order_witness :
  exists x' w',
    full_pipeline input (world0 builtins ledger2) = (Ok x', w') /\
    exists path content l items recs t text rows,
      input !! "input_file" = Some (VStr path) /\
      files (world0 builtins ledger2) !! path = Some content /\
      x' !! "processed_data" = Some (VRef l) /\
      x' !! "processed_data_with_actions" = Some (VRef l) /\
      heap w' !! l = Some (OList items) /\
      Forall2 (fun r d => heap w' !! r = Some (ODict d)) items recs /\
      Forall2 (fun v d => d !! "Vendor" = scalar_of <$> v !! "Vendor")
              (csv_DictReader content) recs /\
      files w' !! results_name t = Some text /\
      csv_reader text = fieldnames :: rows /\
      length rows = length (csv_DictReader content) /\
      Forall2 (fun v r => r !! 0 = (csv_cell ∘ scalar_of) <$> v !! "Vendor")
              (csv_DictReader content) rows.
Proof.
  pose proof good_run_ok as Hok.
  destruct (full_pipeline input (world0 builtins ledger2)) as [[x'|e] w'] eqn:E.
  - exists x', w'. split; [reflexivity|].
    exact (output_rows_follow_ledger_order input _ x' w' E).
  - discriminate Hok.
Defined.

Lemma written_category_is_model_answer_witness :
  exists x' w',
    full_pipeline input (world0 builtins ledger2) = (Ok x', w') /\
    exists evs t text rows,
      log w' = log (world0 builtins ledger2) ++ evs /\
      files w' !! results_name t = Some text /\
      csv_reader text = fieldnames :: rows /\
      Forall (fun r => exists p cat, classification_prompt p /\
                         EvLLM p (Some cat) ∈ evs /\ r !! 3 = Some cat) rows /\
      ((forall p cat, classification_prompt p -> EvLLM p (Some cat) ∈ evs ->
                      cat ∈ departments) ->
       Forall (fun r => exists cat, r !! 3 = Some cat /\ cat ∈ departments) rows).
Proof.
  pose proof good_run_ok as Hok.
  destruct (full_pipeline input (world0 builtins ledger2)) as [[x'|e] w'] eqn:E.
  - exists x', w'. split; [reflexivity|].
    exact (written_category_is_model_answer input _ x' w' E).
  - discriminate Hok.
Defined.

Lemma persisted_rows_have_actions_and_opportunities_match_witness :
  exists x' w',
    full_pipeline input (world0 builtins ledger2) = (Ok x', w') /\
    exists l items recs evs opps t_opp t_csv rows,
      log w' = log (world0 builtins ledger2) ++ evs /\
      x' !! "processed_data" = Some (VRef l) /\
      x' !! "processed_data_with_actions" = Some (VRef l) /\
      heap w' !! l = Some (OList items) /\
      Forall2 (fun r d => heap w' !! r = Some (ODict d)) items recs /\
      files w' !! results_name t_csv = Some (csv_text recs) /\
      csv_reader (csv_text recs) = fieldnames :: rows /\
      Forall2 (fun d r => exists a, d !! "Action" = Some (SStr a) /\
                                    action_from a evs /\ r !! 4 = Some a)
              recs rows /\
      x' !! "top_opportunities" = Some (VStr opps) /\
      files w' !! opportunities_name t_opp = Some opps.
Proof.
  pose proof good_run_ok as Hok.
  destruct (full_pipeline input (world0 builtins ledger2)) as [[x'|e] w'] eqn:E.
  - exists x', w'. split; [reflexivity|].
    exact (persisted_rows_have_actions_and_opportunities_match input _ x' w' E).
  - discriminate Hok.
Defined.

Lemma recommendation_body_ok :
  is_ok (recommend_actions_body EmptyString 1 enriched_world).1 = true.
Proof. vm_compute. reflexivity. Qed.

Lemma action_is_trimmed_lowercased_response_witness :
  exists w',
    recommend_actions_body EmptyString 1 enriched_world = (Ok tt, w') /\
    exists d p resp,
      heap enriched_world !! 1 = Some (ODict d) /\
      recommendation_prompt p /\
      llm_invoke (log enriched_world) p = Some resp /\
      heap w' !! 1 =
        Some (ODict (<["Action" := SStr (str_lower (str_strip resp))]> d)) /\
      (forall k, k <> "Action" ->
         (<["Action" := SStr (str_lower (str_strip resp))]> d) !! k = d !! k) /\
      EvLLM p (Some resp) ∈ drop (length (log enriched_world)) (log w').
Proof.
  pose proof recommendation_body_ok as Hok.
  destruct (recommend_actions_body EmptyString 1 enriched_world)
    as [[[]|e] w'] eqn:E.
  - exists w'. split; [reflexivity|].
    exact (action_is_trimmed_lowercased_response EmptyString 1 _ w' E).
  - discriminate Hok.
Defined.

Lemma results_file_is_header_and_one_row_per_record_witness :
  heap table_world !! 0 = Some (OList [1; 2]) /\
  Forall2 (fun r d => heap table_world !! r = Some (ODict d)) [1; 2] two_records /\
  Forall (fun d => dom d = list_to_set fieldnames) two_records /\
  let name := results_name (datetime_now (log table_world)) in
  exists w' rows,
    save_to_csv 0 table_world = (Ok ("Data saved to " +:+ name), w') /\
    files w' !! name = Some (csv_text two_records) /\
    csv_reader (csv_text two_records) =
      ["Vendor"; "Amount"; "Description"; "Category"; "Action"] :: rows /\
    length rows = length two_records /\
    Forall2 (fun d r =>
      exists vendor amount description category action,
        d !! "Vendor" = Some vendor /\ d !! "Amount" = Some amount /\
        d !! "Description" = Some description /\
        d !! "Category" = Some category /\ d !! "Action" = Some action /\
        r = [csv_cell vendor; csv_cell amount; csv_cell description;
             csv_cell category; csv_cell action]) two_records rows.
Proof.
  assert (H1 : heap table_world !! 0 = Some (OList [1; 2])) by reflexivity.
  assert (H2 : Forall2 (fun r d => heap table_world !! r = Some (ODict d))
                 [1; 2] two_records) by (repeat constructor).
  assert (H3 : Forall (fun d => dom d = list_to_set fieldnames) two_records).
  { repeat constructor; vm_compute; reflexivity. }
  split; [exact H1|]. split; [exact H2|]. split; [exact H3|].
  exact (results_file_is_header_and_one_row_per_record 0 [1; 2] two_records
           table_world H1 H2 H3).
Defined.

Lemma opportunities_ok :
  is_ok (identify_top_opportunities 0 table_world).1 = true.
Proof. vm_compute. reflexivity. Qed.

Lemma opportunities_file_is_model_answer_witness :
  exists s w',
    identify_top_opportunities 0 table_world = (Ok s, w') /\
    exists p t,
      EvLLM p (Some s) ∈ drop (length (log table_world)) (log w') /\
      files w' !! opportunities_name t = Some s /\
      (opportunity_shape s ->
       forall text, files w' !! opportunities_name t = Some text ->
                    opportunity_shape text).
Proof.
  pose proof opportunities_ok as Hok.
  destruct (identify_top_opportunities 0 table_world) as [[s|e] w'] eqn:E.
  - exists s, w'. split; [reflexivity|].
    exact (opportunities_file_is_model_answer 0 _ s w' E).
  - discriminate Hok.
Defined.

Lemma recommendation_only_adds_action_witness :
  exists r w',
    recommend_actions 0 enriched_world = (r, w') /\
    files w' = files enriched_world /\
    length (heap w') = length (heap enriched_world) /\
    (forall p items, heap enriched_world !! p = Some (OList items) ->
                     heap w' !! p = Some (OList items)) /\
    (forall p d, heap enriched_world !! p = Some (ODict d) ->
       exists d', heap w' !! p = Some (ODict d') /\
         d' !! "Vendor" = d !! "Vendor" /\ d' !! "Amount" = d !! "Amount" /\
         d' !! "Category" = d !! "Category" /\
         d' !! "Description" = d !! "Description" /\
         forall k, k <> "Action" -> d' !! k = d !! k) /\
    (forall l', r = Ok l' -> l' = 0).
Proof.
  destruct (recommend_actions 0 enriched_world) as [r w'] eqn:E.
  exists r, w'. split; [reflexivity|].
  exact (recommendation_only_adds_action 0 _ r w' E).
Defined.

Lemma enrichment_twice_ok :
  is_ok ((analyze_vendors_body 0 aws_row >> analyze_vendors_body 0 aws_row)
           empty_list_world).1 = true.
Proof. vm_compute. reflexivity. Qed.

Lemma enrichment_twice_gives_same_record_witness :
  deterministic /\
  exists w1 w2,
    analyze_vendors_body 0 aws_row empty_list_world = (Ok tt, w1) /\
    analyze_vendors_body 0 aws_row w1 = (Ok tt, w2) /\
    (forall x wa wb, (analyze_pipeline x wa).1 = (analyze_pipeline x wb).1) /\
    exists items r1 r2 d1 d2,
      heap empty_list_world !! 0 = Some (OList items) /\
      heap w2 !! 0 = Some (OList (items ++ [r1; r2])) /\
      r1 <> r2 /\
      heap w2 !! r1 = Some (ODict d1) /\
      heap w2 !! r2 = Some (ODict d2) /\
      is_Some (d1 !! "Description") /\ is_Some (d1 !! "Category") /\
      d1 !! "Description" = d2 !! "Description" /\
      d1 !! "Category" = d2 !! "Category".
Proof.
  assert (Hd : deterministic) by (split; intros; reflexivity).
  split; [exact Hd|].
  pose proof enrichment_twice_ok as Hok. unfold bind in Hok.
  destruct (analyze_vendors_body 0 aws_row empty_list_world)
    as [[[]|e1] w1] eqn:E1; [|discriminate Hok].
  destruct (analyze_vendors_body 0 aws_row w1)
    as [[[]|e2] w2] eqn:E2; [|discriminate Hok].
  exists w1, w2. split; [reflexivity|]. split; [exact E2|].
  exact (enrichment_twice_gives_same_record 0 aws_row _ w1 w2 Hd E1 E2).
Defined.

End GoodRun.

Section FlakyRun.
#[local] Existing Instance builtins.
#[local] Existing Instance flaky.

Lemma flaky_run_has_failed_call :
  existsb failed_call (log (full_pipeline input (world0 builtins ledger3)).2) = true.
Proof. vm_compute. reflexivity. Qed.

Lemma external_failure_aborts_run_witness :
  exists r w' evs,
    full_pipeline input (world0 builtins ledger3) = (r, w') /\
    log w' = log (world0 builtins ledger3) ++ evs /\
    Exists (fun c => failed_call c = true) evs /\
    exists evs0 c e,
      evs = evs0 ++ [c] /\ clean evs0 /\ raised_by c = Some e /\
      r = Raise e /\
      files w' = files (world0 builtins ledger3) /\ file_events evs = [].
Proof.
  pose proof flaky_run_has_failed_call as Hex. apply existsb_Exists in Hex.
  destruct (full_pipeline input (world0 builtins ledger3)) as [r w'] eqn:E.
  exists r, w', (log w').
  assert (Hl : log w' = log (world0 builtins ledger3) ++ log w') by reflexivity.
  split; [reflexivity|]. split; [exact Hl|]. split; [exact Hex|].
  exact (external_failure_aborts_run input _ r w' (log w') E Hl Hex).
Defined.

End FlakyRun.

(** C4 as it is written fails: the model answers "Banana" to the
    classification prompt; the run completes, the record and the results
    file hold "Banana", and "Banana" is no department. *)
Lemma category_outside_departments_is_written :
  let run := results (B:=builtins) (Sv:=off_list) (world0 builtins ledger2) in
  is_ok run.1 = true /\
  match heap run.2 !! 1 with
  | Some (ODict d) => d !! "Category"
  | _ => None
  end = Some (SStr "Banana") /\
  csv_reader (default EmptyString
                (files run.2 !! "results_20240517_120000.csv")) !! 1 =
    Some ["AWS"; "1200.0"; "Cloud computing services."; "Banana"; "optimize"] /\
  ~ In "Banana" departments.
Proof.
  split; [vm_compute; reflexivity|].
  split; [vm_compute; reflexivity|].
  split; [vm_compute; reflexivity|].
  simpl. intros H. repeat destruct H as [H|H]; try discriminate H. exact H.
Qed.

(** C7 as it is written fails: the model answers with four rows, the last
    of two fields; the stage returns and persists the answer as it is. *)
Lemma four_opportunity_rows_are_persisted :
  let run := identify_top_opportunities (B:=builtins) (Sv:=chatty) 0 table_world in
  run.1 = Ok four_opportunities /\
  files run.2 !! "opportunities_2024-05-17_12-00-00.txt" = Some four_opportunities /\
  length (data_rows four_opportunities) = 4 /\
  last (data_rows four_opportunities) = Some ["Okta"; "optimize"] /\
  ~ opportunity_shape four_opportunities.
Proof.
  split; [vm_compute; reflexivity|].
  split; [vm_compute; reflexivity|].
  split; [vm_compute; reflexivity|].
  split; [vm_compute; reflexivity|].
  intros [Hlen _]. vm_compute in Hlen. lia.
Qed.
